(** * NEA rain-map camera: the animated-snapshot pipeline of
      [custom_components/nea_sg_weather/camera.py]

    A shallow embedding of [NeaRainCamera.async_camera_image] and of the
    helpers nested in it ([ceil_dt], [get_image]), followed by the
    properties of the pipeline.

    Conventions.
    - A naive [datetime] is the number of microseconds since [datetime.min]
      (0001-01-01T00:00:00); a [timedelta] is a number of microseconds.
      Python refuses a datetime outside [datetime.min, datetime.max] with
      [OverflowError]; the embedding keeps that check.
    - Python exceptions are values of [exception]; code that can raise
      returns a [res], and code that also touches the entity or the host
      runs in the monad [M], whose outcome carries the world as it is at
      the moment of the return or of the raise.
    - Pillow, httpx, the host state store and the constants of [const.py]
      are collaborators: they are interfaces here, never implementations.
    - [_LOGGER] calls are not part of the model. *)

From Stdlib Require Import ZArith List Lia Bool Ascii.
From Stdlib.Strings Require Import Byte.
From Stdlib Require Import PrimFloat Uint63 SpecFloat FloatOps.
From stdpp Require Import gmap strings pretty.
From Equations Require Import Equations.
Import ListNotations.

Local Open Scope Z_scope.

(** ** Python exceptions and fallible values *)

(** The exception classes the pipeline can meet.  All of them derive from
    [Exception]; [TimeoutException] derives from [RequestError] (through
    [TransportError]) as in httpx. *)
Inductive exception : Type :=
| OverflowError
| ZeroDivisionError
| IndexError
| AttributeError
| UnidentifiedImageError
| TimeoutException
| HTTPStatusError
| RequestError
| OtherException (name : string).

Inductive exception_class : Type :=
| cls_TimeoutException
| cls_HTTPStatusError
| cls_RequestError
| cls_Exception.

(** [isinstance(e, cls)] for the classes named in [except] clauses. *)
Definition isinstance (e : exception) (cls : exception_class) : bool :=
  match cls, e with
  | cls_Exception, _ => true
  | cls_TimeoutException, TimeoutException => true
  | cls_HTTPStatusError, HTTPStatusError => true
  | cls_RequestError, (RequestError | TimeoutException) => true
  | _, _ => false
  end.

Inductive res (A : Type) : Type :=
| Val (a : A)
| Exc (e : exception).
Arguments Val {A} a.
Arguments Exc {A} e.

Definition res_bind {A B : Type} (r : res A) (k : A -> res B) : res B :=
  match r with
  | Val a => k a
  | Exc e => Exc e
  end.

Definition inspect {A : Type} (x : A) : { y : A | x = y } := exist _ x eq_refl.

Definition bytes : Type := list byte.

(** ** [datetime] and [timedelta] *)

Module Datetime.

Definition datetime : Type := Z.
Definition timedelta : Type := Z.

(** [timedelta(minutes = m)] *)
Definition timedelta_minutes (m : Z) : timedelta := m * 60000000.

(** [datetime.min] is 0001-01-01T00:00:00 and [datetime.max] is
    9999-12-31T23:59:59.999999; [date.max.toordinal()] is 3652059. *)
Definition datetime_min : datetime := 0.
Definition datetime_max : datetime := 3652059 * 86400000000 - 1.

Definition representable (t : Z) : bool :=
  (datetime_min <=? t) && (t <=? datetime_max).

(** [dt + delta] *)
Definition dt_add (dt : datetime) (delta : timedelta) : res datetime :=
  if representable (dt + delta) then Val (dt + delta) else Exc OverflowError.

(** [dt - delta] *)
Definition dt_sub (dt : datetime) (delta : timedelta) : res datetime :=
  dt_add dt (- delta).

(** [a - b] for two datetimes: always a valid timedelta. *)
Definition dt_diff (a b : datetime) : timedelta := a - b.

(** [a % b] on timedeltas: floor modulo, the sign of the divisor. *)
Definition td_mod (a b : timedelta) : res timedelta :=
  if b =? 0 then Exc ZeroDivisionError else Val (a mod b).

End Datetime.
Import Datetime.

(** ** Time bucketing *)

(** [def ceil_dt(dt, delta): return dt + (datetime.min - dt) % delta] *)
Definition ceil_dt (dt : datetime) (delta : timedelta) : res datetime :=
  res_bind (td_mod (dt_diff datetime_min dt) delta) (fun r => dt_add dt r).

Lemma dt_add_Val (dt : datetime) (delta : timedelta) (r : datetime) :
  dt_add dt delta = Val r -> r = dt + delta.
Proof.
  unfold dt_add. destruct (representable (dt + delta)); congruence.
Qed.

(** [td = timedelta(minutes = 5)], the bucket size of the pipeline. *)
Definition td : timedelta := timedelta_minutes 5.

(** [[
      timestamps = []
      while start < now:
          timestamps.append(start)
          start = start + td
    ]]
    The loop ends because every turn moves [start] forward by [td]; the
    measure counts the turns that are left. *)
Equations? while_start_lt_now (start now : datetime)
    (timestamps : list datetime) : res (list datetime)
    by wf (Z.to_nat ((now - start) / td + 1)) lt :=
  while_start_lt_now start now timestamps with Z_lt_dec start now := {
    | right _ := Val timestamps;
    | left _ with inspect (dt_add start td) := {
        | exist _ (Val start') Hadd :=
            while_start_lt_now start' now (timestamps ++ [start]);
        | exist _ (Exc e) Hadd := Exc e } }.
Proof.
  apply dt_add_Val in Hadd. subst start'.
  replace (now - (start + td)) with ((now - start) + (-1) * td) by lia.
  rewrite Z.div_add by (unfold td, timedelta_minutes; lia).
  assert (0 <= (now - start) / td)
    by (apply Z.div_pos; unfold td, timedelta_minutes; lia).
  lia.
Qed.

(** ** Collaborators *)

(** The constants the module imports from [const.py]. *)
Class Const : Type := {
  RAIN_MAP_HEADERS : list (string * string);
  RAIN_MAP_URL_PREFIX : string;
  RAIN_MAP_URL_SUFFIX : string }.

(** The two renderings of a datetime the pipeline asks for:
    [timestamp.astimezone(_SG_TZ).strftime('%Y%m%d%H%M')] and
    [timestamp.isoformat()]. *)
Class Calendar : Type := {
  strftime_sg : datetime -> string;
  isoformat : datetime -> string }.

(** Pillow.  [Image_open content] is [Image.open(io.BytesIO(content))] and
    raises on bytes that are no image; [ImageDraw_line frame args] is the
    frame after [ImageDraw.Draw(frame).line(xy, fill, width)];
    [Image_save first args] is the buffer after [first.save(buff, ...)]. *)
Record line_args : Type := {
  xy : Z * Z * float * Z;
  fill : string;
  width : Z }.

Record save_args (Image : Type) : Type := {
  format : string;
  save_all : bool;
  append_images : list Image;
  optimize : bool;
  duration : Z;
  disposal : Z;
  loop : Z }.
Arguments Build_save_args {Image}.

Class Pillow : Type := {
  Image : Type;
  Image_open : bytes -> res Image;
  Image_size : Image -> Z * Z;
  ImageDraw_line : Image -> line_args -> Image;
  Image_save : Image -> save_args Image -> bytes }.

(** httpx.  A response carries its status and its body;
    [raise_for_status] raises unless the status is a 2xx. *)
Record Response : Type := {
  status_code : Z;
  content : bytes }.

Definition is_success (response : Response) : bool :=
  (200 <=? status_code response) && (status_code response <=? 299).

Definition raise_for_status (response : Response) : res unit :=
  if is_success response then Val tt else Exc HTTPStatusError.

(** The host state store: [hass.states] maps an entity id to a state value
    and its attributes. *)
Inductive pyobj : Type :=
| PyNone
| PyStr (s : string)
| PyInt (n : Z)
| PyBool (b : bool).

Record State : Type := {
  state : string;
  attributes : gmap string pyobj }.

(** What one invocation reads from outside: the wall clock and, for every
    URL, how [await async_client.get(url, headers = ...)] ends. *)
Record Env : Type := {
  datetime_now : datetime;
  client_get : string -> list (string * string) -> res Response }.

(** ** The entity *)

Record NeaRainCamera : Type := {
  _name : string;
  _prefix : string;
  entity_id : string;
  _last_image_time : option datetime;
  _last_image_time_pretty : option string;
  _last_image : option bytes;
  _last_url : option string;
  _last_state : option string;
  _last_attributes : option (gmap string pyobj);
  _updated_attributes : option (gmap string pyobj) }.

Definition ascii_lower (c : ascii) : ascii :=
  let n := nat_of_ascii c in
  if ((65 <=? n) && (n <=? 90))%nat then ascii_of_nat (n + 32) else c.

Fixpoint str_map (f : ascii -> ascii) (s : string) : string :=
  match s with
  | EmptyString => EmptyString
  | String c rest => String (f c) (str_map f rest)
  end.

(** [s.lower().replace(" ", "_")], on ASCII text. *)
Definition lower_underscore (s : string) : string :=
  str_map (fun c => if Ascii.eqb c " " then "_"%char else c)
          (str_map ascii_lower s).

(** [NeaRainCamera.__init__], for a configuration whose name and prefix are
    [name] and [prefix]: every cache field starts as [None]. *)
Definition NeaRainCamera_init (name prefix : string) : NeaRainCamera :=
  {| _name := name ++ " Rain Map";
     _prefix := prefix;
     entity_id := lower_underscore ("camera" ++ "." ++ prefix ++ "_rain_map");
     _last_image_time := None;
     _last_image_time_pretty := None;
     _last_image := None;
     _last_url := None;
     _last_state := None;
     _last_attributes := None;
     _updated_attributes := None |}.

(** The world an invocation runs in: the entity, the host state store and
    the URLs requested so far, oldest first. *)
Record World : Type := {
  self : NeaRainCamera;
  hass_states : gmap string State;
  requested : list string }.

Inductive outcome (A : Type) : Type :=
| Return (a : A) (w : World)
| Raise (e : exception) (w : World).
Arguments Return {A} a w.
Arguments Raise {A} e w.

Definition world_of {A : Type} (o : outcome A) : World :=
  match o with
  | Return _ w => w
  | Raise _ w => w
  end.

Definition M (A : Type) : Type := World -> outcome A.

Definition ret {A : Type} (a : A) : M A := fun w => Return a w.

Definition bind {A B : Type} (m : M A) (k : A -> M B) : M B :=
  fun w =>
    match m w with
    | Return a w' => k a w'
    | Raise e w' => Raise e w'
    end.

Definition lift {A : Type} (r : res A) : M A :=
  fun w =>
    match r with
    | Val a => Return a w
    | Exc e => Raise e w
    end.

Definition get_self : M NeaRainCamera := fun w => Return (self w) w.

Definition update_self (f : NeaRainCamera -> NeaRainCamera) : M unit :=
  fun w =>
    Return tt {| self := f (self w);
                 hass_states := hass_states w;
                 requested := requested w |}.

Declare Scope py_scope.
Delimit Scope py_scope with py.
Notation "x <~ m ;; k" := (bind m (fun x => k))
  (at level 100, m at next level, right associativity) : py_scope.
Notation "m ;; k" := (bind m (fun _ => k))
  (at level 100, right associativity) : py_scope.

(** Assignments to the attributes of [self]. *)
Definition set__last_image_time (v : option datetime) (s : NeaRainCamera) :=
  {| _name := _name s; _prefix := _prefix s; entity_id := entity_id s;
     _last_image_time := v;
     _last_image_time_pretty := _last_image_time_pretty s;
     _last_image := _last_image s; _last_url := _last_url s;
     _last_state := _last_state s; _last_attributes := _last_attributes s;
     _updated_attributes := _updated_attributes s |}.

Definition set__last_image_time_pretty (v : option string) (s : NeaRainCamera) :=
  {| _name := _name s; _prefix := _prefix s; entity_id := entity_id s;
     _last_image_time := _last_image_time s;
     _last_image_time_pretty := v;
     _last_image := _last_image s; _last_url := _last_url s;
     _last_state := _last_state s; _last_attributes := _last_attributes s;
     _updated_attributes := _updated_attributes s |}.

Definition set__last_image (v : option bytes) (s : NeaRainCamera) :=
  {| _name := _name s; _prefix := _prefix s; entity_id := entity_id s;
     _last_image_time := _last_image_time s;
     _last_image_time_pretty := _last_image_time_pretty s;
     _last_image := v; _last_url := _last_url s;
     _last_state := _last_state s; _last_attributes := _last_attributes s;
     _updated_attributes := _updated_attributes s |}.

Definition set__last_url (v : option string) (s : NeaRainCamera) :=
  {| _name := _name s; _prefix := _prefix s; entity_id := entity_id s;
     _last_image_time := _last_image_time s;
     _last_image_time_pretty := _last_image_time_pretty s;
     _last_image := _last_image s; _last_url := v;
     _last_state := _last_state s; _last_attributes := _last_attributes s;
     _updated_attributes := _updated_attributes s |}.

Definition set__last_state (v : option string) (s : NeaRainCamera) :=
  {| _name := _name s; _prefix := _prefix s; entity_id := entity_id s;
     _last_image_time := _last_image_time s;
     _last_image_time_pretty := _last_image_time_pretty s;
     _last_image := _last_image s; _last_url := _last_url s;
     _last_state := v; _last_attributes := _last_attributes s;
     _updated_attributes := _updated_attributes s |}.

Definition set__last_attributes (v : option (gmap string pyobj))
    (s : NeaRainCamera) :=
  {| _name := _name s; _prefix := _prefix s; entity_id := entity_id s;
     _last_image_time := _last_image_time s;
     _last_image_time_pretty := _last_image_time_pretty s;
     _last_image := _last_image s; _last_url := _last_url s;
     _last_state := _last_state s; _last_attributes := v;
     _updated_attributes := _updated_attributes s |}.

Definition set__updated_attributes (v : option (gmap string pyobj))
    (s : NeaRainCamera) :=
  {| _name := _name s; _prefix := _prefix s; entity_id := entity_id s;
     _last_image_time := _last_image_time s;
     _last_image_time_pretty := _last_image_time_pretty s;
     _last_image := _last_image s; _last_url := _last_url s;
     _last_state := _last_state s; _last_attributes := _last_attributes s;
     _updated_attributes := v |}.

(** A Python value that is a string or [None]. *)
Definition pyobj_of (v : option string) : pyobj :=
  match v with
  | Some s => PyStr s
  | None => PyNone
  end.


(** ** Host state store *)

(** [hass.states.get(entity_id)]: the state, or [None] when the store has
    none for this entity. *)
Definition states_get (entity : string) : M (option State) :=
  fun w => Return (hass_states w !! entity) w.

(** [hass.states.async_set(entity_id, new_state, attributes)] *)
Definition states_async_set (entity new_state : string)
    (attrs : gmap string pyobj) : M unit :=
  fun w =>
    Return tt {| self := self w;
                 hass_states :=
                   <[entity := {| state := new_state; attributes := attrs |}]>
                     (hass_states w);
                 requested := requested w |}.

(** [o.state] and [o.attributes] on what [states.get] returned: an
    attribute of [None] raises [AttributeError]. *)
Definition getattr {A : Type} (o : option State) (field : State -> A) : res A :=
  match o with
  | Some st => Val (field st)
  | None => Exc AttributeError
  end.

(** ** Numbers and lists *)

Definition len {A : Type} (l : list A) : Z := Z.of_nat (length l).

(** [l[-1]] *)
Definition index_last {A : Type} (l : list A) : res A :=
  match last l with
  | Some x => Val x
  | None => Exc IndexError
  end.

(** [float(n)], for [|n| < 2^63]. *)
Definition float_of_int (n : Z) : float :=
  if n <? 0 then PrimFloat.opp (PrimFloat.of_uint63 (Uint63.of_Z (- n)))
  else PrimFloat.of_uint63 (Uint63.of_Z n).

(** [a / b] on two ints: the float quotient, [ZeroDivisionError] on 0. *)
Definition truediv (a b : Z) : res float :=
  if b =? 0 then Exc ZeroDivisionError
  else Val (PrimFloat.div (float_of_int a) (float_of_int b)).

(** [a == b] where [a] is a datetime or [None] and [b] is a datetime. *)
Definition py_eq (a : option datetime) (b : datetime) : bool :=
  match a with
  | Some t => t =? b
  | None => false
  end.

Definition is_None {A : Type} (o : option A) : bool :=
  match o with
  | None => true
  | Some _ => false
  end.

(** ** The pipeline *)

Section Pipeline.

Context {const : Const} {calendar : Calendar} {pillow : Pillow}.

Local Open Scope py_scope.

Definition rain_map_url (timestamp : datetime) : string :=
  RAIN_MAP_URL_PREFIX ++ strftime_sg timestamp ++ RAIN_MAP_URL_SUFFIX.

(** The request leaves for [url]. *)
Definition note_request (url : string) : M unit :=
  fun w =>
    Return tt {| self := self w;
                 hass_states := hass_states w;
                 requested := requested w ++ [url] |}.

(** [try: body  except ...: handler] *)
Definition try_except {A : Type} (body : M A) (handler : exception -> M A)
    : M A :=
  fun w =>
    match body w with
    | Return a w' => Return a w'
    | Raise e w' => handler e w'
    end.

Definition raise {A : Type} (e : exception) : M A := fun w => Raise e w.

(** [[
      async def get_image(timestamp):
          url = RAIN_MAP_URL_PREFIX + ... + RAIN_MAP_URL_SUFFIX
          try:
              async_client = get_async_client(self.hass, verify_ssl=...)
              response = await async_client.get(url, headers=RAIN_MAP_HEADERS)
              response.raise_for_status()
              return response.content
          except httpx.TimeoutException:
              return
          except (httpx.HTTPStatusError, httpx.RequestError):
              return
          except Exception as e:
              return
    ]] *)
Definition get_image (env : Env) (timestamp : datetime) : M (option bytes) :=
  let url := rain_map_url timestamp in
  try_except
    (note_request url ;;
     response <~ lift (client_get env url RAIN_MAP_HEADERS) ;;
     lift (raise_for_status response) ;;
     ret (Some (content response)))
    (fun e =>
       if isinstance e cls_TimeoutException then ret None
       else if isinstance e cls_HTTPStatusError
               || isinstance e cls_RequestError then ret None
       else if isinstance e cls_Exception then ret None
       else raise e).

(** [await asyncio.gather( *coros )]: the coroutines are started in the
    order of the list and the results come back in that order. *)
Fixpoint gather {A : Type} (coros : list (M A)) : M (list A) :=
  match coros with
  | [] => ret []
  | coro :: rest =>
      a <~ coro ;;
      results <~ gather rest ;;
      ret (a :: results)
  end.

(** [[
      for content in contents:
          if not (content is None):
              self._last_image = content
              images.append(Image.open(io.BytesIO(content)))
    ]] *)
Fixpoint for_content_in_contents (contents : list (option bytes))
    (images : list Image) : M (list Image) :=
  match contents with
  | [] => ret images
  | None :: rest => for_content_in_contents rest images
  | Some content :: rest =>
      update_self (set__last_image (Some content)) ;;
      image <~ lift (Image_open content) ;;
      for_content_in_contents rest (images ++ [image])
  end.

(** [draw.line((0, 0, progress * w, 0), fill='gray', width=3)] *)
Definition progress_line (progress : float) (w : Z) : line_args :=
  {| xy := (0, 0, PrimFloat.mul progress (float_of_int w), 0);
     fill := "gray";
     width := 3 |}.

(** [[
      for idx, frame in enumerate(images):
          w, h = frame.size
          progress = idx / (len(images) - 1)
          draw = ImageDraw.Draw(frame)
          draw.line((0,0,progress * w, 0), fill='gray', width=3)
          frames.append(frame)
    ]]
    [n] is [len(images)] of the whole list, [rest] what is left of it. *)
Fixpoint for_idx_frame_in_images (n idx : Z) (rest : list Image)
    (frames : list Image) : res (list Image) :=
  match rest with
  | [] => Val frames
  | frame :: rest' =>
      let '(w, h) := Image_size frame in
      res_bind (truediv idx (n - 1)) (fun progress =>
      let frame' := ImageDraw_line frame (progress_line progress w) in
      for_idx_frame_in_images n (idx + 1) rest' (frames ++ [frame']))
  end.

(** [[
      buff = io.BytesIO()
      frames[0].save(buff, format='GIF', save_all=True,
                     append_images=frames[1:], optimize=False,
                     duration=1000, disposal=2, loop=0)
      ... buff.getvalue()
    ]] *)
Definition save_frames (frames : list Image) : res bytes :=
  match frames with
  | [] => Exc IndexError
  | first :: others =>
      Val (Image_save first
             (Build_save_args "GIF" true others false 1000 2 0))
  end.

(** The body of [if len(images) == len(timestamps):]. *)
Definition commit_full_success (timestamps : list datetime) : M unit :=
  t1 <~ lift (index_last timestamps) ;;
  update_self (set__last_image_time (Some t1)) ;;
  t2 <~ lift (index_last timestamps) ;;
  update_self (set__last_image_time_pretty (Some (isoformat t2))) ;;
  t3 <~ lift (index_last timestamps) ;;
  update_self (set__last_url (Some (rain_map_url t3))) ;;
  s <~ get_self ;;
  o1 <~ states_get (entity_id s) ;;
  last_state <~ lift (getattr o1 state) ;;
  update_self (set__last_state (Some last_state)) ;;
  o2 <~ states_get (entity_id s) ;;
  last_attributes <~ lift (getattr o2 attributes) ;;
  update_self (set__last_attributes (Some last_attributes)) ;;
  s <~ get_self ;;
  let updated :=
    <["URL" := pyobj_of (_last_url s)]>
      (<["Updated at" := pyobj_of (_last_image_time_pretty s)]>
         last_attributes) in
  update_self (set__updated_attributes (Some updated)) ;;
  states_async_set (entity_id s) last_state updated.

(** The body of [if len(images) > 1:]. *)
Definition animate (images : list Image) (timestamps : list datetime)
    : M unit :=
  frames <~ lift (for_idx_frame_in_images (len images) 0 images []) ;;
  buff <~ lift (save_frames frames) ;;
  update_self (set__last_image (Some buff)) ;;
  if len images =? len timestamps
  then commit_full_success timestamps
  else ret tt.

(** [async_camera_image] from [images = []] on. *)
Definition assemble (timestamps : list datetime)
    (contents : list (option bytes)) : M (option bytes) :=
  images <~ for_content_in_contents contents [] ;;
  (if 1 <? len images then animate images timestamps else ret tt) ;;
  s <~ get_self ;;
  ret (_last_image s).

(** [async_camera_image] from [timestamps = []] on. *)
Definition fetch_and_assemble (env : Env) (now : datetime)
    : M (option bytes) :=
  start <~ lift (dt_sub now (timedelta_minutes 50)) ;;
  timestamps <~ lift (while_start_lt_now start now []) ;;
  contents <~ gather (map (get_image env) timestamps) ;;
  assemble timestamps contents.

(** [[
      td = timedelta(minutes = 5)
      now = ceil_dt(datetime.now(), td)
      if self._last_image_time == now - td:
          if not (self._last_image is None):
              return self._last_image
      ...
    ]] *)
Definition async_camera_image (env : Env) : M (option bytes) :=
  now <~ lift (ceil_dt (datetime_now env) td) ;;
  s <~ get_self ;;
  gate <~ lift (dt_sub now td) ;;
  if py_eq (_last_image_time s) gate then
    if negb (is_None (_last_image s)) then ret (_last_image s)
    else fetch_and_assemble env now
  else fetch_and_assemble env now.

End Pipeline.

(** * Properties *)

(** ** Time bucketing *)

(** The last 5-minute boundary a datetime can hold: 9999-12-31T23:55:00. *)
Definition last_bucket : datetime := datetime_max + 1 - td.

(** [t] lies a whole number of buckets after [datetime.min]. *)
Definition aligned (t : datetime) : Prop := (t - datetime_min) mod td = 0.

(** What is asked of [ceil_dt(t, td)]: it returns a datetime [r] with
    [t <= r < t + td], on a bucket boundary, and [ceil_dt] leaves [r] as it
    is. *)
Definition ceil_dt_spec (t : datetime) : Prop :=
  exists r : datetime,
    ceil_dt t td = Val r /\ t <= r /\ r < t + td /\ aligned r /\
    ceil_dt r td = Val r.

Lemma td_value : td = 300000000.
Proof. reflexivity. Qed.

Lemma datetime_max_value : datetime_max = 315537897599999999.
Proof. reflexivity. Qed.

Lemma representable_true (t : Z) :
  representable t = true <-> datetime_min <= t <= datetime_max.
Proof. unfold representable. rewrite andb_true_iff, !Z.leb_le. tauto. Qed.

Lemma ceil_dt_unfold (t : datetime) :
  ceil_dt t td = dt_add t ((- t) mod td).
Proof.
  unfold ceil_dt, td_mod, dt_diff, datetime_min. rewrite td_value. simpl.
  reflexivity.
Qed.

Lemma dt_add_ok (t d : Z) :
  datetime_min <= t + d <= datetime_max -> dt_add t d = Val (t + d).
Proof.
  intros Hr. unfold dt_add.
  destruct (representable (t + d)) eqn:E; [reflexivity|].
  apply representable_true in Hr. congruence.
Qed.

Lemma dt_add_overflow (t d : Z) :
  datetime_max < t + d -> dt_add t d = Exc OverflowError.
Proof.
  intros Hr. unfold dt_add.
  destruct (representable (t + d)) eqn:E; [|reflexivity].
  apply representable_true in E. lia.
Qed.

Lemma dt_add_underflow (t d : Z) :
  t + d < datetime_min -> dt_add t d = Exc OverflowError.
Proof.
  intros Hr. unfold dt_add.
  destruct (representable (t + d)) eqn:E; [|reflexivity].
  apply representable_true in E. lia.
Qed.

(** The pure value of the rounding. *)
Definition bucket_of (t : datetime) : datetime := t + (- t) mod td.

Lemma bucket_of_bounds (t : datetime) : t <= bucket_of t < t + td.
Proof.
  unfold bucket_of. rewrite td_value.
  pose proof (Z.mod_pos_bound (- t) 300000000 ltac:(lia)). lia.
Qed.

Lemma bucket_of_aligned (t : datetime) : aligned (bucket_of t).
Proof.
  unfold aligned, bucket_of, datetime_min. rewrite Z.sub_0_r.
  rewrite Z.add_mod_idemp_r by (rewrite td_value; lia).
  replace (t + - t) with 0 by lia. reflexivity.
Qed.

Lemma aligned_multiple (t : datetime) : aligned t <-> exists k, t = k * td.
Proof.
  unfold aligned, datetime_min. rewrite Z.sub_0_r. split.
  - intros Hm. exists (t / td).
    pose proof (Z.div_mod t td ltac:(rewrite td_value; lia)). lia.
  - intros [k ->]. apply Z.mod_mul. rewrite td_value. lia.
Qed.

Lemma bucket_of_least (t r : datetime) :
  aligned r -> t <= r -> bucket_of t <= r.
Proof.
  intros Hr Htr.
  destruct (proj1 (aligned_multiple r) Hr) as [k ->].
  destruct (proj1 (aligned_multiple _) (bucket_of_aligned t)) as [j Hj].
  pose proof (bucket_of_bounds t) as Hb. rewrite Hj in *.
  rewrite td_value in *. nia.
Qed.

Lemma bucket_of_fixed (t : datetime) : aligned t -> bucket_of t = t.
Proof.
  intros Ha. pose proof (bucket_of_bounds t).
  pose proof (bucket_of_least t t Ha ltac:(lia)). lia.
Qed.

Lemma last_bucket_aligned : aligned last_bucket.
Proof. reflexivity. Qed.

Lemma ceil_dt_in_range (t : datetime) :
  datetime_min <= t <= last_bucket -> ceil_dt t td = Val (bucket_of t).
Proof.
  intros [Hlo Hhi]. rewrite ceil_dt_unfold. apply dt_add_ok.
  fold (bucket_of t).
  pose proof (bucket_of_bounds t).
  pose proof (bucket_of_least t last_bucket last_bucket_aligned Hhi).
  unfold last_bucket in *. rewrite td_value in *. lia.
Qed.

Lemma ceil_dt_past_last_bucket (t : datetime) :
  last_bucket < t -> ceil_dt t td = Exc OverflowError.
Proof.
  intros Hlt. rewrite ceil_dt_unfold. apply dt_add_overflow.
  fold (bucket_of t).
  destruct (proj1 (aligned_multiple _) (bucket_of_aligned t)) as [j Hj].
  pose proof (bucket_of_bounds t) as Hb. rewrite Hj in *.
  unfold last_bucket in Hlt.
  rewrite datetime_max_value, td_value in *. nia.
Qed.

(** C1 (as first stated) fails at [datetime.max]: the rounded value would
    be the first instant of year 10000, which no datetime holds, so
    [ceil_dt] raises [OverflowError] and returns nothing. *)
Lemma ceil_dt_spec_fails_at_datetime_max :
  ceil_dt datetime_max td = Exc OverflowError /\ ~ ceil_dt_spec datetime_max.
Proof.
  assert (E : ceil_dt datetime_max td = Exc OverflowError) by reflexivity.
  split; [exact E|].
  intros [r [Hr _]]. rewrite E in Hr. discriminate.
Qed.

(** C1 (amended): for every datetime [t] up to the last bucket boundary
    9999-12-31T23:55:00, [ceil_dt(t, td)] returns the least datetime [r]
    with [t <= r] that lies on a 5-minute boundary counted from
    [datetime.min]; [r < t + 5 minutes]; and [ceil_dt(r, td)] is [r]
    again.  Past that boundary [ceil_dt] raises [OverflowError]. *)
Theorem ceil_dt_bucket (t : datetime) :
  datetime_min <= t <= datetime_max ->
  (t <= last_bucket ->
     exists r : datetime,
       ceil_dt t td = Val r /\ t <= r /\ r < t + td /\ aligned r /\
       (forall r' : datetime, aligned r' -> t <= r' -> r <= r') /\
       ceil_dt r td = Val r) /\
  (last_bucket < t -> ceil_dt t td = Exc OverflowError).
Proof.
  intros [Hlo Hhi]. split.
  - intros Hlast. exists (bucket_of t).
    pose proof (bucket_of_bounds t) as Hb.
    pose proof (bucket_of_aligned t) as Ha.
    pose proof (bucket_of_least t last_bucket last_bucket_aligned Hlast) as Hl.
    repeat split; try lia; try assumption.
    + apply ceil_dt_in_range. lia.
    + intros r' Hr' Hle. apply bucket_of_least; assumption.
    + rewrite ceil_dt_in_range by lia. f_equal. apply bucket_of_fixed, Ha.
  - apply ceil_dt_past_last_bucket.
Qed.

(** An afternoon in 2024: 2024-05-17T14:03:27.250000. *)
Definition t_2024 : datetime := 63851551407250000.

Lemma ceil_dt_bucket_witness :
  (exists r : datetime,
     ceil_dt t_2024 td = Val r /\ t_2024 <= r /\ r < t_2024 + td /\
     aligned r /\
     (forall r' : datetime, aligned r' -> t_2024 <= r' -> r <= r') /\
     ceil_dt r td = Val r) /\
  (last_bucket < t_2024 -> ceil_dt t_2024 td = Exc OverflowError).
Proof.
  destruct (ceil_dt_bucket t_2024) as [H1 H2].
  - unfold t_2024, datetime_min. rewrite datetime_max_value. lia.
  - split; [apply H1|exact H2].
    unfold t_2024, last_bucket. rewrite datetime_max_value, td_value. lia.
Defined.
(** ** The requested buckets *)

(** The ten buckets before [now], oldest first. *)
Definition buckets (now : datetime) : list datetime :=
  [now - 10 * td; now - 9 * td; now - 8 * td; now - 7 * td; now - 6 * td;
   now - 5 * td; now - 4 * td; now - 3 * td; now - 2 * td; now - 1 * td].

Lemma while_start_lt_now_stop (start now : datetime) (acc : list datetime) :
  now <= start -> while_start_lt_now start now acc = Val acc.
Proof.
  intros Hle. rewrite while_start_lt_now_equation_1.
  destruct (Z_lt_dec start now) as [Hlt|Hge]; [lia|].
  reflexivity.
Qed.

Lemma while_start_lt_now_step (start now : datetime) (acc : list datetime) :
  start < now -> datetime_min <= start + td <= datetime_max ->
  while_start_lt_now start now acc =
  while_start_lt_now (start + td) now (acc ++ [start]).
Proof.
  intros Hlt Hr. rewrite while_start_lt_now_equation_1.
  destruct (Z_lt_dec start now) as [Hlt'|Hge]; [|lia].
  unfold while_start_lt_now_unfold_clause_1.
  destruct (inspect (dt_add start td)) as [[start'|e] Hadd];
    unfold while_start_lt_now_unfold_clause_1_clause_2.
  - apply dt_add_Val in Hadd. subst start'. reflexivity.
  - rewrite dt_add_ok in Hadd by assumption. discriminate.
Qed.

Lemma while_start_lt_now_buckets (now : datetime) :
  timedelta_minutes 50 <= now <= datetime_max ->
  while_start_lt_now (now - timedelta_minutes 50) now [] = Val (buckets now).
Proof.
  intros [Hlo Hhi].
  assert (Htd : td = 300000000) by reflexivity.
  assert (H50 : timedelta_minutes 50 = 3000000000) by reflexivity.
  rewrite H50 in *. unfold datetime_min in *.
  do 10 (rewrite while_start_lt_now_step by (unfold datetime_min; lia);
         cbn [app]).
  rewrite while_start_lt_now_stop by lia.
  unfold buckets. rewrite Htd. repeat f_equal; lia.
Qed.


Lemma buckets_last (now : datetime) :
  index_last (buckets now) = Val (now - td).
Proof. unfold index_last, buckets. cbn. f_equal; lia. Qed.

(** ** The stages of the pipeline, one by one *)

Definition with_self (f : NeaRainCamera -> NeaRainCamera) (w : World) : World :=
  {| self := f (self w);
     hass_states := hass_states w;
     requested := requested w |}.

Definition with_requested (urls : list string) (w : World) : World :=
  {| self := self w;
     hass_states := hass_states w;
     requested := requested w ++ urls |}.

Lemma set__last_image_same (s : NeaRainCamera) :
  set__last_image (_last_image s) s = s.
Proof. destruct s. reflexivity. Qed.

Lemma with_self_same (w : World) :
  with_self (set__last_image (_last_image (self w))) w = w.
Proof. destruct w as [s hs rq]. unfold with_self. cbn. now rewrite set__last_image_same. Qed.

Lemma with_self_set__last_image_twice (u v : option bytes) (w : World) :
  with_self (set__last_image v) (with_self (set__last_image u) w) =
  with_self (set__last_image v) w.
Proof. reflexivity. Qed.

Lemma with_requested_nil (w : World) : with_requested [] w = w.
Proof. destruct w. unfold with_requested. cbn. now rewrite app_nil_r. Qed.

Lemma with_requested_app (us vs : list string) (w : World) :
  with_requested vs (with_requested us w) = with_requested (us ++ vs) w.
Proof. unfold with_requested. cbn. now rewrite app_assoc. Qed.

Section Stages.

Context {const : Const} {calendar : Calendar} {pillow : Pillow}.

(** What [get_image] hands back for one bucket. *)
Definition fetched (env : Env) (timestamp : datetime) : option bytes :=
  match client_get env (rain_map_url timestamp) RAIN_MAP_HEADERS with
  | Val response =>
      if is_success response then Some (content response) else None
  | Exc _ => None
  end.

Lemma get_image_eq (env : Env) (timestamp : datetime) (w : World) :
  get_image env timestamp w =
  Return (fetched env timestamp) (with_requested [rain_map_url timestamp] w).
Proof.
  unfold get_image, fetched, try_except, bind, note_request, lift,
    raise_for_status, ret.
  destruct (client_get env (rain_map_url timestamp) RAIN_MAP_HEADERS)
    as [response|e]; cbn.
  - destruct (is_success response); reflexivity.
  - destruct e; reflexivity.
Qed.

Lemma gather_get_image (env : Env) (timestamps : list datetime) (w : World) :
  gather (map (get_image env) timestamps) w =
  Return (map (fetched env) timestamps)
         (with_requested (map rain_map_url timestamps) w).
Proof.
  revert w. induction timestamps as [|t ts IH]; intros w; cbn [map gather].
  - unfold ret. now rewrite with_requested_nil.
  - unfold bind at 1. rewrite get_image_eq.
    unfold bind at 1. rewrite IH. unfold ret.
    now rewrite with_requested_app.
Qed.

(** The decoding loop, without the entity: the images it builds, and the
    value it leaves in [self._last_image] (that of the last content it
    reached, also when [Image.open] raised on it). *)
Fixpoint open_images (contents : list (option bytes)) (images : list Image)
    : res (list Image) :=
  match contents with
  | [] => Val images
  | None :: rest => open_images rest images
  | Some content :: rest =>
      res_bind (Image_open content)
               (fun image => open_images rest (images ++ [image]))
  end.

Fixpoint image_after_loop (contents : list (option bytes))
    (previous : option bytes) : option bytes :=
  match contents with
  | [] => previous
  | None :: rest => image_after_loop rest previous
  | Some content :: rest =>
      match Image_open content with
      | Val _ => image_after_loop rest (Some content)
      | Exc _ => Some content
      end
  end.

Lemma for_content_in_contents_eq (contents : list (option bytes))
    (images : list Image) (w : World) :
  for_content_in_contents contents images w =
  let w' := with_self
              (set__last_image
                 (image_after_loop contents (_last_image (self w)))) w in
  match open_images contents images with
  | Val images' => Return images' w'
  | Exc e => Raise e w'
  end.
Proof.
  revert images w.
  induction contents as [|[content|] rest IH]; intros images w;
    cbn [for_content_in_contents open_images image_after_loop].
  - cbn zeta. now rewrite with_self_same.
  - unfold bind at 1. unfold update_self. fold (with_self (set__last_image (Some content)) w).
    unfold bind at 1. unfold lift at 1.
    destruct (Image_open content) as [image|e]; cbn [res_bind].
    + rewrite IH. cbn zeta. cbn [with_self self set__last_image _last_image].
      reflexivity.
    + reflexivity.
  - apply IH.
Qed.

End Stages.

Section Assembly.

Context {const : Const} {calendar : Calendar} {pillow : Pillow}.

(** The contents that are there, in order. *)
Fixpoint present (contents : list (option bytes)) : list bytes :=
  match contents with
  | [] => []
  | None :: rest => present rest
  | Some content :: rest => content :: present rest
  end.

Lemma present_length_le (contents : list (option bytes)) :
  (length (present contents) <= length contents)%nat.
Proof.
  induction contents as [|[c|] rest IH]; cbn [present length]; lia.
Qed.


Lemma open_images_length (contents : list (option bytes))
    (images images' : list Image) :
  open_images contents images = Val images' ->
  length images' = (length images + length (present contents))%nat.
Proof.
  revert images.
  induction contents as [|[c|] rest IH]; intros images;
    cbn [open_images present length].
  - intros [= <-]. lia.
  - destruct (Image_open c) as [image|e]; cbn [res_bind]; [|discriminate].
    intros Ho. apply IH in Ho. rewrite length_app in Ho. cbn in Ho. lia.
  - apply IH.
Qed.

Lemma image_after_loop_decoded (contents : list (option bytes))
    (images images' : list Image) (previous : option bytes) :
  open_images contents images = Val images' ->
  image_after_loop contents previous =
  match last (present contents) with
  | Some content => Some content
  | None => previous
  end.
Proof.
  revert images previous.
  induction contents as [|[c|] rest IH]; intros images previous;
    cbn [open_images present image_after_loop].
  - reflexivity.
  - destruct (Image_open c) as [image|e]; cbn [res_bind]; [|discriminate].
    intros Ho. rewrite (IH _ (Some c) Ho), last_cons.
    destruct (last (present rest)); reflexivity.
  - apply IH.
Qed.

Lemma image_after_loop_keeps (contents : list (option bytes))
    (previous : option bytes) :
  is_Some previous -> is_Some (image_after_loop contents previous).
Proof.
  revert previous.
  induction contents as [|[c|] rest IH]; intros previous Hp;
    cbn [image_after_loop]; auto.
  destruct (Image_open c); eauto.
Qed.

Lemma image_after_loop_present (contents : list (option bytes))
    (previous : option bytes) :
  present contents <> [] -> is_Some (image_after_loop contents previous).
Proof.
  revert previous.
  induction contents as [|[c|] rest IH]; intros previous Hp;
    cbn [image_after_loop present] in *.
  - congruence.
  - destruct (Image_open c); [apply image_after_loop_keeps|]; eauto.
  - auto.
Qed.

Lemma image_after_loop_absent (contents : list (option bytes))
    (previous : option bytes) :
  present contents = [] -> image_after_loop contents previous = previous.
Proof.
  revert previous.
  induction contents as [|[c|] rest IH]; intros previous Hp;
    cbn [image_after_loop present] in *; auto; discriminate.
Qed.

(** The progress of frame [idx] among [n]: [idx / (n - 1)]. *)
Definition progress_of (n idx : Z) : float :=
  PrimFloat.div (float_of_int idx) (float_of_int (n - 1)).

(** Frame [idx] with its bar. *)
Definition with_bar (n idx : Z) (frame : Image) : Image :=
  ImageDraw_line frame
    (progress_line (progress_of n idx) (fst (Image_size frame))).

Fixpoint draw_frames (n idx : Z) (rest : list Image) : list Image :=
  match rest with
  | [] => []
  | frame :: rest' => with_bar n idx frame :: draw_frames n (idx + 1) rest'
  end.

Lemma for_idx_frame_in_images_eq (n idx : Z) (rest frames : list Image) :
  n - 1 <> 0 ->
  for_idx_frame_in_images n idx rest frames =
  Val (frames ++ draw_frames n idx rest).
Proof.
  intros Hn. revert idx frames.
  induction rest as [|frame rest IH]; intros idx frames;
    cbn [for_idx_frame_in_images draw_frames].
  - now rewrite app_nil_r.
  - unfold with_bar, progress_of.
    destruct (Image_size frame) as [w h] eqn:Esize. cbn [fst].
    unfold truediv. destruct (Z.eqb_spec (n - 1) 0) as [E|_]; [contradiction|].
    cbn [res_bind]. rewrite IH. now rewrite <- app_assoc.
Qed.



End Assembly.

Section Cycle.

Context {const : Const} {calendar : Calendar} {pillow : Pillow}.

(** The three assignments that open the full-success commit. *)
Definition with_metadata (t : datetime) (s : NeaRainCamera) : NeaRainCamera :=
  set__last_url (Some (rain_map_url t))
    (set__last_image_time_pretty (Some (isoformat t))
       (set__last_image_time (Some t) s)).

(** The attributes the commit writes to the host. *)
Definition merged_attributes (t : datetime) (st : State) : gmap string pyobj :=
  <["URL" := PyStr (rain_map_url t)]>
    (<["Updated at" := PyStr (isoformat t)]> (attributes st)).

(** The world after a commit that found [st] in the store. *)
Definition committed (t : datetime) (st : State) (w : World) : World :=
  {| self :=
       set__updated_attributes (Some (merged_attributes t st))
         (set__last_attributes (Some (attributes st))
            (set__last_state (Some (state st))
               (with_metadata t (self w))));
     hass_states :=
       <[entity_id (self w) :=
           {| state := state st; attributes := merged_attributes t st |}]>
         (hass_states w);
     requested := requested w |}.

Lemma commit_full_success_eq (timestamps : list datetime) (t : datetime)
    (w : World) :
  index_last timestamps = Val t ->
  commit_full_success timestamps w =
  match hass_states w !! entity_id (self w) with
  | Some st => Return tt (committed t st w)
  | None => Raise AttributeError (with_self (with_metadata t) w)
  end.
Proof.
  intros Hlast. unfold commit_full_success, bind. rewrite Hlast.
  cbn [lift update_self get_self states_get self hass_states requested
       entity_id set__last_url set__last_image_time_pretty
       set__last_image_time].
  destruct (hass_states w !! entity_id (self w)) as [st|] eqn:E;
    [|reflexivity].
  cbn. rewrite E. reflexivity.
Qed.

(** The animation encoded from [images]. *)
Definition encoded (images : list Image) : res bytes :=
  save_frames (draw_frames (len images) 0 images).

Lemma encoded_Val (images : list Image) :
  1 < len images ->
  exists first others,
    draw_frames (len images) 0 images = first :: others /\
    encoded images =
    Val (Image_save first (Build_save_args "GIF" true others false 1000 2 0)).
Proof.
  intros Hlen. unfold encoded.
  destruct images as [|i0 rest]; [unfold len in Hlen; cbn in Hlen; lia|].
  cbn [draw_frames save_frames]. eauto.
Qed.

Lemma animate_eq (images : list Image) (timestamps : list datetime)
    (w : World) (buff : bytes) :
  1 < len images ->
  encoded images = Val buff ->
  animate images timestamps w =
  let w1 := with_self (set__last_image (Some buff)) w in
  if len images =? len timestamps
  then commit_full_success timestamps w1
  else Return tt w1.
Proof.
  intros Hlen Henc. unfold animate, bind.
  rewrite for_idx_frame_in_images_eq by lia. cbn [lift app].
  unfold encoded in Henc. rewrite Henc. cbn [update_self].
  fold (with_self (set__last_image (Some buff)) w). cbn zeta.
  destruct (len images =? len timestamps); reflexivity.
Qed.

(** The world once the decoding loop is over. *)
Definition after_decoding (contents : list (option bytes)) (w : World)
    : World :=
  with_self
    (set__last_image (image_after_loop contents (_last_image (self w)))) w.

Lemma assemble_decode_error (timestamps : list datetime)
    (contents : list (option bytes)) (w : World) (e : exception) :
  open_images contents [] = Exc e ->
  assemble timestamps contents w = Raise e (after_decoding contents w).
Proof.
  intros Ho. unfold assemble, bind. rewrite for_content_in_contents_eq.
  cbn zeta. rewrite Ho. reflexivity.
Qed.

Lemma assemble_few (timestamps : list datetime)
    (contents : list (option bytes)) (w : World) (images : list Image) :
  open_images contents [] = Val images ->
  len images <= 1 ->
  assemble timestamps contents w =
  Return (image_after_loop contents (_last_image (self w)))
         (after_decoding contents w).
Proof.
  intros Ho Hlen. unfold assemble, bind. rewrite for_content_in_contents_eq.
  cbn zeta. rewrite Ho.
  destruct (Z.ltb_spec 1 (len images)) as [Hlt|_]; [lia|]. reflexivity.
Qed.

Lemma assemble_partial (timestamps : list datetime)
    (contents : list (option bytes)) (w : World) (images : list Image)
    (buff : bytes) :
  open_images contents [] = Val images ->
  1 < len images ->
  encoded images = Val buff ->
  len images <> len timestamps ->
  assemble timestamps contents w =
  Return (Some buff) (with_self (set__last_image (Some buff)) w).
Proof.
  intros Ho Hlen Henc Hne. unfold assemble, bind.
  rewrite for_content_in_contents_eq. cbn zeta. rewrite Ho.
  destruct (Z.ltb_spec 1 (len images)) as [_|Hle]; [|lia].
  rewrite (animate_eq _ _ _ buff Hlen Henc). cbn zeta.
  destruct (Z.eqb_spec (len images) (len timestamps)) as [E|_]; [contradiction|].
  reflexivity.
Qed.

Lemma assemble_full (timestamps : list datetime)
    (contents : list (option bytes)) (w : World) (images : list Image)
    (buff : bytes) (t : datetime) :
  open_images contents [] = Val images ->
  1 < len images ->
  encoded images = Val buff ->
  len images = len timestamps ->
  index_last timestamps = Val t ->
  assemble timestamps contents w =
  let w1 := with_self (set__last_image (Some buff)) w in
  match hass_states w !! entity_id (self w) with
  | Some st => Return (Some buff) (committed t st w1)
  | None => Raise AttributeError (with_self (with_metadata t) w1)
  end.
Proof.
  intros Ho Hlen Henc Heq Hlast. unfold assemble, bind.
  rewrite for_content_in_contents_eq. cbn zeta. rewrite Ho.
  destruct (Z.ltb_spec 1 (len images)) as [_|Hle]; [|lia].
  rewrite (animate_eq _ _ _ buff Hlen Henc). cbn zeta.
  rewrite Heq, Z.eqb_refl.
  rewrite (commit_full_success_eq _ t _ Hlast).
  cbn [with_self self hass_states entity_id set__last_image].
  destruct (hass_states w !! entity_id (self w)); reflexivity.
Qed.

End Cycle.

(** ** One invocation *)

(** The bucket an invocation calls [now]. *)
Definition now_of (env : Env) : datetime := bucket_of (datetime_now env).

(** The wall clock reads a time for which the arithmetic of an invocation
    stays within the datetimes: later than 0001-01-01T00:45:00, so that
    [now - 50 minutes] exists, and not past the last bucket. *)
Definition clock_in_range (env : Env) : Prop :=
  timedelta_minutes 45 < datetime_now env <= last_bucket.

(** The cache gate: both tests of
    [if self._last_image_time == now - td: if not (self._last_image is None):]. *)
Definition gate_hit (s : NeaRainCamera) (now : datetime) : bool :=
  py_eq (_last_image_time s) (now - td) && negb (is_None (_last_image s)).

Lemma now_of_range (env : Env) :
  clock_in_range env ->
  timedelta_minutes 50 <= now_of env <= last_bucket.
Proof.
  intros [Hlo Hhi]. unfold now_of.
  pose proof (bucket_of_bounds (datetime_now env)) as Hb.
  pose proof (bucket_of_least _ _ last_bucket_aligned Hhi) as Hl.
  split; [|exact Hl].
  destruct (proj1 (aligned_multiple _) (bucket_of_aligned (datetime_now env)))
    as [k Hk].
  rewrite Hk in *. unfold timedelta_minutes in *. rewrite td_value in *. nia.
Qed.

Lemma last_bucket_value : last_bucket = 315537897300000000.
Proof. reflexivity. Qed.

Section Invocation.

Context {const : Const} {calendar : Calendar} {pillow : Pillow}.

(** The contents an invocation gathers once the gate is passed. *)
Definition contents_of (env : Env) : list (option bytes) :=
  map (fetched env) (buckets (now_of env)).

(** The world as the gathering leaves it. *)
Definition after_requests (env : Env) (w : World) : World :=
  with_requested (map rain_map_url (buckets (now_of env))) w.

Lemma fetch_and_assemble_eq (env : Env) (w : World) :
  clock_in_range env ->
  fetch_and_assemble env (now_of env) w =
  assemble (buckets (now_of env)) (contents_of env) (after_requests env w).
Proof.
  intros Hc. pose proof (now_of_range env Hc) as [Hlo Hhi].
  rewrite last_bucket_value in Hhi.
  unfold fetch_and_assemble, bind, dt_sub.
  rewrite dt_add_ok
    by (unfold datetime_min; rewrite datetime_max_value;
        unfold timedelta_minutes in *; lia).
  cbn [lift].
  replace (now_of env + - timedelta_minutes 50)
    with (now_of env - timedelta_minutes 50) by lia.
  rewrite while_start_lt_now_buckets
    by (rewrite datetime_max_value; unfold timedelta_minutes in *; lia).
  cbn [lift]. rewrite gather_get_image. reflexivity.
Qed.

Lemma async_camera_image_eq (env : Env) (w : World) :
  clock_in_range env ->
  async_camera_image env w =
  if gate_hit (self w) (now_of env)
  then Return (_last_image (self w)) w
  else assemble (buckets (now_of env)) (contents_of env)
                (after_requests env w).
Proof.
  intros Hc. pose proof (now_of_range env Hc) as [Hlo Hhi].
  pose proof Hc as [Hc1 Hc2].
  rewrite last_bucket_value in Hhi.
  unfold async_camera_image, bind.
  rewrite ceil_dt_in_range
    by (unfold datetime_min, timedelta_minutes in *; lia).
  fold (now_of env). cbn [lift get_self]. unfold dt_sub.
  rewrite dt_add_ok
    by (unfold datetime_min; rewrite datetime_max_value, td_value;
        unfold timedelta_minutes in *; lia).
  replace (now_of env + - td) with (now_of env - td) by lia.
  cbn [lift]. unfold gate_hit.
  destruct (py_eq (_last_image_time (self w)) (now_of env - td));
    cbn [andb].
  - destruct (negb (is_None (_last_image (self w)))); [reflexivity|].
    apply fetch_and_assemble_eq, Hc.
  - apply fetch_and_assemble_eq, Hc.
Qed.

(** How the part of an invocation after the gathering can end. *)
Inductive cycle_outcome (timestamps : list datetime)
    (contents : list (option bytes)) (w : World)
    : outcome (option bytes) -> Prop :=
| cycle_decode_error (e : exception) :
    open_images contents [] = Exc e ->
    cycle_outcome timestamps contents w
      (Raise e (after_decoding contents w))
| cycle_few (images : list Image) :
    open_images contents [] = Val images ->
    len images <= 1 ->
    cycle_outcome timestamps contents w
      (Return (image_after_loop contents (_last_image (self w)))
              (after_decoding contents w))
| cycle_partial (images : list Image) (buff : bytes) :
    open_images contents [] = Val images ->
    1 < len images ->
    encoded images = Val buff ->
    len images <> len timestamps ->
    cycle_outcome timestamps contents w
      (Return (Some buff) (with_self (set__last_image (Some buff)) w))
| cycle_full (images : list Image) (buff : bytes) (t : datetime) (st : State) :
    open_images contents [] = Val images ->
    1 < len images ->
    encoded images = Val buff ->
    len images = len timestamps ->
    index_last timestamps = Val t ->
    hass_states w !! entity_id (self w) = Some st ->
    cycle_outcome timestamps contents w
      (Return (Some buff)
              (committed t st (with_self (set__last_image (Some buff)) w)))
| cycle_full_no_state (images : list Image) (buff : bytes) (t : datetime) :
    open_images contents [] = Val images ->
    1 < len images ->
    encoded images = Val buff ->
    len images = len timestamps ->
    index_last timestamps = Val t ->
    hass_states w !! entity_id (self w) = None ->
    cycle_outcome timestamps contents w
      (Raise AttributeError
             (with_self (with_metadata t)
                        (with_self (set__last_image (Some buff)) w))).

Lemma index_last_Val {A : Type} (l : list A) :
  l <> [] -> exists x, index_last l = Val x.
Proof.
  intros Hl. unfold index_last.
  destruct (last l) as [x|] eqn:E; [eauto|].
  apply last_None in E. contradiction.
Qed.

Lemma assemble_outcome (timestamps : list datetime)
    (contents : list (option bytes)) (w : World) :
  cycle_outcome timestamps contents w (assemble timestamps contents w).
Proof.
  destruct (open_images contents []) as [images|e] eqn:Ho.
  - destruct (Z_lt_dec 1 (len images)) as [Hlen|Hlen].
    + destruct (encoded_Val images Hlen) as (first & others & _ & Henc).
      destruct (Z.eq_dec (len images) (len timestamps)) as [Heq|Hne].
      * destruct (index_last_Val timestamps) as [t Ht].
        { intros ->. unfold len in *. cbn in Heq. lia. }
        pose proof (assemble_full _ _ w _ _ t Ho Hlen Henc Heq Ht) as Ha.
        cbn zeta in Ha. rewrite Ha.
        destruct (hass_states w !! entity_id (self w)) as [st|] eqn:Es.
        -- eapply cycle_full; eauto.
        -- eapply cycle_full_no_state; eauto.
      * rewrite (assemble_partial _ _ w _ _ Ho Hlen Henc Hne).
        eapply cycle_partial; eauto.
    + rewrite (assemble_few _ _ w _ Ho) by lia.
      eapply cycle_few; eauto. lia.
  - rewrite (assemble_decode_error _ _ w _ Ho). now apply cycle_decode_error.
Qed.

End Invocation.

(** ** An example installation *)

Definition example_const : Const :=
  {| RAIN_MAP_HEADERS := [("User-Agent", "Mozilla/5.0")];
     RAIN_MAP_URL_PREFIX := "https://example.org/rain-area/dpsri_70km_";
     RAIN_MAP_URL_SUFFIX := "0000dBR.dpsri.png" |}.

(** A calendar that renders a datetime by its count of minutes, and by
    its count of microseconds. *)
Definition example_calendar : Calendar :=
  {| strftime_sg := fun t => pretty (t / 60000000)%Z;
     isoformat := fun t : Z => pretty t |}.

(** A picture library whose images are the bytes they came from and the
    lines drawn on them; no bytes at all are not an image. *)
Definition example_pillow : Pillow :=
  {| Image := bytes * list line_args;
     Image_open := fun content =>
       match content with
       | [] => Exc UnidentifiedImageError
       | _ => Val (content, [])
       end;
     Image_size := fun _ => (480, 480);
     ImageDraw_line := fun image args => (fst image, snd image ++ [args]);
     Image_save := fun first args =>
       fst first ++ concat (map fst (append_images _ args)) |}.

Definition png : bytes := [x89; x50; x4e; x47].

Definition ok_response (body : bytes) : res Response :=
  Val {| status_code := 200; content := body |}.

Definition not_found : res Response :=
  Val {| status_code := 404; content := [] |}.

(** The entity of a configuration named NEA with prefix nea, in a host
    that holds a state for it, before any request. *)
Definition example_camera : NeaRainCamera := NeaRainCamera_init "NEA" "nea".

Definition example_states : gmap string State :=
  {[ "camera.nea_rain_map" := {| state := "idle"; attributes := ∅ |} ]}.

Definition example_world : World :=
  {| self := example_camera;
     hass_states := example_states;
     requested := [] |}.

(** 2024-05-17T14:05:00, the bucket of [t_2024], and the bucket before. *)
Definition now_2024 : datetime := 63851551500000000.
Definition last_2024 : datetime := 63851551200000000.

Definition example_url (t : datetime) : string :=
  @rain_map_url example_const example_calendar t.

(** Every request answers with a picture. *)
Definition env_all_ok : Env :=
  {| datetime_now := t_2024;
     client_get := fun _ _ => ok_response png |}.

(** Every request times out. *)
Definition env_all_timeout : Env :=
  {| datetime_now := t_2024;
     client_get := fun _ _ => Exc TimeoutException |}.

(** Only the newest bucket is there; the others answer 404. *)
Definition env_one_ok : Env :=
  {| datetime_now := t_2024;
     client_get := fun url _ =>
       if String.eqb url (example_url last_2024)
       then ok_response png else not_found |}.

(** The two newest buckets are there; the others answer 404. *)
Definition env_two_ok : Env :=
  {| datetime_now := t_2024;
     client_get := fun url _ =>
       if String.eqb url (example_url last_2024)
          || String.eqb url (example_url (last_2024 - td))
       then ok_response png else not_found |}.

(** Every request answers 200 with an empty body. *)
Definition env_empty_body : Env :=
  {| datetime_now := t_2024;
     client_get := fun _ _ => ok_response [] |}.

Lemma example_clock_in_range (env : Env) :
  datetime_now env = t_2024 -> clock_in_range env.
Proof.
  intros E. unfold clock_in_range. rewrite E, last_bucket_value.
  unfold timedelta_minutes, t_2024. lia.
Qed.

Lemma example_now_of (env : Env) :
  datetime_now env = t_2024 -> now_of env = now_2024.
Proof. intros E. unfold now_of. rewrite E. reflexivity. Qed.

(** * The claims *)

Section RequestedBuckets.

Context {const : Const} {calendar : Calendar} {pillow : Pillow}.



End RequestedBuckets.

Lemma example_gate_miss (env : Env) :
  gate_hit (self example_world) (now_of env) = false.
Proof. reflexivity. Qed.


Section CacheGate.

Context {const : Const} {calendar : Calendar} {pillow : Pillow}.

(** C3: when the cached last-frame bucket is [now - 5 min] and an image
    is cached, the invocation returns the cached bytes and leaves the
    world as it found it: no request is added, no field of the entity
    changes, the host state store is untouched.  A second invocation in
    the same bucket therefore returns the same bytes again, and again
    changes nothing. *)
Theorem cache_gate_short_circuit (env env' : Env) (w : World) (image : bytes) :
  clock_in_range env ->
  _last_image_time (self w) = Some (now_of env - td) ->
  _last_image (self w) = Some image ->
  clock_in_range env' ->
  now_of env' = now_of env ->
  async_camera_image env w = Return (Some image) w /\
  requested (world_of (async_camera_image env w)) = requested w /\
  self (world_of (async_camera_image env w)) = self w /\
  hass_states (world_of (async_camera_image env w)) = hass_states w /\
  async_camera_image env' (world_of (async_camera_image env w)) =
    Return (Some image) w.
Proof.
  intros Hc Htime Himage Hc' Hnow.
  assert (Hhit : gate_hit (self w) (now_of env) = true).
  { unfold gate_hit. rewrite Htime, Himage. cbn. now rewrite Z.eqb_refl. }
  assert (H1 : async_camera_image env w = Return (Some image) w).
  { rewrite (async_camera_image_eq env w Hc), Hhit, Himage. reflexivity. }
  rewrite H1. cbn [world_of]. repeat split.
  rewrite (async_camera_image_eq env' w Hc'), Hnow, Hhit, Himage.
  reflexivity.
Qed.

End CacheGate.

(** The example entity once a full animation for [last_2024] is cached. *)
Definition cached_world : World :=
  {| self := set__last_image (Some png)
               (set__last_image_time (Some last_2024) example_camera);
     hass_states := example_states;
     requested := [] |}.

(** A second reading of the clock, 40 seconds later, in the same bucket. *)
Definition env_later : Env :=
  {| datetime_now := t_2024 + 40000000;
     client_get := fun _ _ => Exc TimeoutException |}.

Lemma cache_gate_short_circuit_witness :
  @async_camera_image example_const example_calendar example_pillow
    env_all_ok cached_world = Return (Some png) cached_world /\
  requested (world_of (@async_camera_image example_const example_calendar
                         example_pillow env_all_ok cached_world)) =
    requested cached_world /\
  self (world_of (@async_camera_image example_const example_calendar
                    example_pillow env_all_ok cached_world)) =
    self cached_world /\
  hass_states (world_of (@async_camera_image example_const example_calendar
                           example_pillow env_all_ok cached_world)) =
    hass_states cached_world /\
  @async_camera_image example_const example_calendar example_pillow env_later
    (world_of (@async_camera_image example_const example_calendar
                 example_pillow env_all_ok cached_world)) =
    Return (Some png) cached_world.
Proof.
  apply (@cache_gate_short_circuit example_const example_calendar
           example_pillow env_all_ok env_later cached_world png).
  - apply example_clock_in_range. reflexivity.
  - reflexivity.
  - reflexivity.
  - unfold clock_in_range. rewrite last_bucket_value.
    unfold timedelta_minutes, env_later, t_2024. cbn. lia.
  - reflexivity.
Defined.

Section GetImage.

Context {const : Const} {calendar : Calendar} {pillow : Pillow}.


End GetImage.

Section FewFrames.

Context {const : Const} {calendar : Calendar} {pillow : Pillow}.

(** What C4 first asked of a cycle that decodes at most one frame: it
    returns what was cached before and leaves the entity as it was. *)
Definition few_frames_keep_cache (env : Env) (w : World) : Prop :=
  forall images : list Image,
    open_images (contents_of env) [] = Val images ->
    len images <= 1 ->
    exists w' : World,
      async_camera_image env w = Return (_last_image (self w)) w' /\
      self w' = self w.

Lemma present_singleton_In (contents : list (option bytes)) (content : bytes) :
  present contents = [content] -> In (Some content) contents.
Proof.
  induction contents as [|[c|] rest IH]; cbn [present]; intros Hp.
  - discriminate.
  - injection Hp as -> _. now left.
  - right. auto.
Qed.

(** C4 (amended): a cycle that decodes no frame returns what was cached
    before (bytes or [None]) and changes no field of the entity.  A cycle
    that decodes exactly one frame encodes no animation either, but it
    stores the raw bytes of that one fetched image in [_last_image] and
    returns them; no other field changes.  Neither touches the host
    state store. *)
Theorem few_frames (env : Env) (w : World) (images : list Image) :
  clock_in_range env ->
  gate_hit (self w) (now_of env) = false ->
  open_images (contents_of env) [] = Val images ->
  len images <= 1 ->
  exists r : option bytes,
    async_camera_image env w =
      Return r (with_self (set__last_image r) (after_requests env w)) /\
    (len images = 0 -> r = _last_image (self w)) /\
    (len images = 1 ->
       exists content : bytes,
         present (contents_of env) = [content] /\
         In (Some content) (contents_of env) /\
         r = Some content).
Proof.
  intros Hc Hgate Ho Hlen.
  exists (image_after_loop (contents_of env) (_last_image (self w))).
  rewrite (async_camera_image_eq env w Hc), Hgate.
  rewrite (assemble_few _ _ _ images Ho Hlen).
  pose proof (open_images_length _ _ _ Ho) as Hl. cbn [length] in Hl.
  split; [reflexivity|].
  rewrite (image_after_loop_decoded _ _ _ _ Ho).
  unfold len in *. split.
  - intros H0. destruct (present (contents_of env)); [reflexivity|].
    cbn in Hl. lia.
  - intros H1.
    destruct (present (contents_of env)) as [|c [|c' l]] eqn:Ep;
      cbn in Hl; try lia.
    exists c. split; [reflexivity|]. split; [|reflexivity].
    now apply present_singleton_In.
Qed.

End FewFrames.

(** C4 (as first stated) fails when exactly one bucket is fetched: with
    nothing cached, the invocation returns the bytes of that one picture,
    not [None], and [_last_image] now holds them. *)
Lemma few_frames_keep_cache_fails :
  (exists w' : World,
     @async_camera_image example_const example_calendar example_pillow
       env_one_ok example_world = Return (Some png) w' /\
     _last_image (self w') = Some png /\
     _last_image (self example_world) = None) /\
  ~ @few_frames_keep_cache example_const example_calendar example_pillow
      env_one_ok example_world.
Proof.
  split.
  - eexists. split; [vm_compute; reflexivity|]. split; reflexivity.
  - intros H.
    destruct (H [(png, [])]) as [w' [Hr _]].
    + vm_compute. reflexivity.
    + unfold len. cbn. lia.
    + vm_compute in Hr. discriminate.
Qed.

Lemma few_frames_witness :
  exists r : option bytes,
    @async_camera_image example_const example_calendar example_pillow
      env_one_ok example_world =
      Return r (with_self (set__last_image r)
                  (@after_requests example_const example_calendar
                     env_one_ok example_world)) /\
    (len [(png, @nil line_args)] = 0 -> r = _last_image (self example_world)) /\
    (len [(png, @nil line_args)] = 1 ->
       exists content : bytes,
         @present (@contents_of example_const example_calendar env_one_ok)
           = [content] /\
         In (Some content)
            (@contents_of example_const example_calendar env_one_ok) /\
         r = Some content).
Proof.
  apply (@few_frames example_const example_calendar example_pillow
           env_one_ok example_world [(png, [])]).
  - apply example_clock_in_range. reflexivity.
  - reflexivity.
  - vm_compute. reflexivity.
  - unfold len. cbn. lia.
Defined.

(** ** Progress bars *)



Section ProgressBars.

Context {const : Const} {calendar : Calendar} {pillow : Pillow}.




End ProgressBars.



Section FreshAnimation.

Context {const : Const} {calendar : Calendar} {pillow : Pillow}.



End FreshAnimation.


(** ** Cached metadata *)

(** The cached metadata of the entity: the bucket of the last frame, its
    ISO rendering and the URL of that frame. *)
Definition metadata (s : NeaRainCamera)
    : option datetime * option string * option string :=
  (_last_image_time s, _last_image_time_pretty s, _last_url s).


Section Metadata.

Context {const : Const} {calendar : Calendar} {pillow : Pillow}.

(** The metadata a commit for bucket [t] records. *)
Definition metadata_for (t : datetime)
    : option datetime * option string * option string :=
  (Some t, Some (isoformat t), Some (rain_map_url t)).

(** A full-success cycle: the gate is passed, every gathered content
    decodes, and there are as many frames as requested buckets. *)
Definition full_success (env : Env) (w : World) : bool :=
  negb (gate_hit (self w) (now_of env)) &&
  match open_images (contents_of env) [] with
  | Val images => len images =? len (buckets (now_of env))
  | Exc _ => false
  end.

(** The invocations of a list of environments, one after the other. *)
Fixpoint run (w : World) (envs : list Env) : World :=
  match envs with
  | [] => w
  | env :: rest => run (world_of (async_camera_image env w)) rest
  end.








End Metadata.


(** ** What escapes an invocation *)

Section Escapes.

Context {const : Const} {calendar : Calendar} {pillow : Pillow}.



Lemma open_images_Exc (contents : list (option bytes)) (images : list Image)
    (e : exception) :
  open_images contents images = Exc e ->
  exists content : bytes,
    In (Some content) contents /\ Image_open content = Exc e.
Proof.
  revert images.
  induction contents as [|[c|] rest IH]; intros images; cbn [open_images].
  - discriminate.
  - destruct (Image_open c) as [image|e'] eqn:Hi; cbn [res_bind].
    + intros Ho. destruct (IH _ Ho) as (c' & Hin & Hc'). exists c'.
      split; [now right | exact Hc'].
    + intros [= ->]. exists c. split; [now left | exact Hi].
  - intros Ho. destruct (IH _ Ho) as (c' & Hin & Hc'). exists c'.
    split; [now right | exact Hc'].
Qed.



End Escapes.


(** A host that holds no state for the entity. *)
Definition stateless_world : World :=
  {| self := example_camera; hass_states := ∅; requested := [] |}.

Lemma commit_without_state_raises :
  exists w' : World,
    @async_camera_image example_const example_calendar example_pillow
      env_all_ok stateless_world = Raise AttributeError w' /\
    is_Some (_last_image (self w')) /\
    _last_image_time (self w') = Some last_2024.
Proof.
  eexists. split; [vm_compute; reflexivity|]. split; [eexists|]; reflexivity.
Qed.


(** ** The stored last image over the life of the entity *)

Section LastImage.

Context {const : Const} {calendar : Calendar} {pillow : Pillow}.

(** Some [get_image] of the invocation returned bytes: the gate was
    passed and one of the gathered contents is not [None]. *)
Definition fetch_returned_bytes (env : Env) (w : World) : bool :=
  negb (gate_hit (self w) (now_of env)) &&
  existsb (fun content => negb (is_None content)) (contents_of env).

(** Some [get_image] returned bytes in one of the invocations of a run. *)
Fixpoint ever_returned_bytes (w : World) (envs : list Env) : bool :=
  match envs with
  | [] => false
  | env :: rest =>
      fetch_returned_bytes env w ||
      ever_returned_bytes (world_of (async_camera_image env w)) rest
  end.

Lemma existsb_present (contents : list (option bytes)) :
  existsb (fun content => negb (is_None content)) contents =
  negb (match present contents with [] => true | _ => false end).
Proof.
  induction contents as [|[c|] rest IH]; cbn [existsb present is_None negb orb];
    auto.
Qed.

Lemma is_Some_is_None {A : Type} (o : option A) :
  is_Some o -> is_None o = false.
Proof. intros [x ->]. reflexivity. Qed.

Lemma In_present (contents : list (option bytes)) (content : bytes) :
  In (Some content) contents -> present contents <> [].
Proof.
  induction contents as [|[c|] rest IH]; cbn [present In].
  - tauto.
  - discriminate.
  - intros [H|H]; [discriminate | auto].
Qed.

Lemma cycle_outcome_last_image (timestamps : list datetime)
    (contents : list (option bytes)) (w : World) (o : outcome (option bytes)) :
  cycle_outcome timestamps contents w o ->
  is_None (_last_image (self (world_of o))) =
  is_None (_last_image (self w)) &&
  negb (existsb (fun content => negb (is_None content)) contents).
Proof.
  intros H. rewrite existsb_present, negb_involutive.
  assert (Hmany : forall images : list Image,
            open_images contents [] = Val images -> 1 < len images ->
            match present contents with [] => true | _ => false end = false).
  { intros images Ho Hlen. apply open_images_length in Ho. unfold len in Hlen.
    destruct (present contents); [cbn in Ho; lia | reflexivity]. }
  destruct H as [e He | images Ho Hle | images buff Ho Hlen Henc Hne
                | images buff t st Ho Hlen Henc Heq Ht Hst
                | images buff t Ho Hlen Henc Heq Ht Hst];
    cbn [world_of].
  - destruct (open_images_Exc _ _ _ He) as (c & Hin & _).
    pose proof (In_present _ _ Hin) as Hp.
    unfold after_decoding. cbn [with_self self set__last_image _last_image].
    rewrite (is_Some_is_None _ (image_after_loop_present _ _ Hp)).
    destruct (present contents); [contradiction|]. now rewrite andb_false_r.
  - unfold after_decoding. cbn [with_self self set__last_image _last_image].
    destruct (present contents) as [|c l] eqn:Ep.
    + rewrite (image_after_loop_absent _ _ Ep). now rewrite andb_true_r.
    + rewrite (is_Some_is_None _ (image_after_loop_present contents _
                                    ltac:(rewrite Ep; discriminate))).
      now rewrite andb_false_r.
  - rewrite (Hmany _ Ho Hlen), andb_false_r. reflexivity.
  - rewrite (Hmany _ Ho Hlen), andb_false_r. reflexivity.
  - rewrite (Hmany _ Ho Hlen), andb_false_r. reflexivity.
Qed.

Lemma cycle_outcome_return_value (timestamps : list datetime)
    (contents : list (option bytes)) (w w' : World) (r : option bytes) :
  cycle_outcome timestamps contents w (Return r w') ->
  r = _last_image (self w').
Proof. intros H. inversion H; subst; reflexivity. Qed.

Lemma gate_hit_cached (s : NeaRainCamera) (now : datetime) :
  gate_hit s now = true -> is_None (_last_image s) = false.
Proof.
  unfold gate_hit. intros H. apply andb_true_iff in H as [_ H].
  now apply negb_true_iff in H.
Qed.

Lemma last_image_step (env : Env) (w : World) :
  clock_in_range env ->
  is_None (_last_image (self (world_of (async_camera_image env w)))) =
  is_None (_last_image (self w)) && negb (fetch_returned_bytes env w).
Proof.
  intros Hc. rewrite (async_camera_image_eq env w Hc).
  unfold fetch_returned_bytes.
  destruct (gate_hit (self w) (now_of env)) eqn:Hg; cbn [negb andb world_of].
  - rewrite (gate_hit_cached _ _ Hg). reflexivity.
  - rewrite (cycle_outcome_last_image _ _ _ _ (assemble_outcome _ _ _)).
    reflexivity.
Qed.

Lemma return_value_step (env : Env) (w w' : World) (r : option bytes) :
  clock_in_range env ->
  async_camera_image env w = Return r w' ->
  r = _last_image (self w').
Proof.
  intros Hc. rewrite (async_camera_image_eq env w Hc).
  destruct (gate_hit (self w) (now_of env)).
  - intros [= <- <-]. reflexivity.
  - intros Hr.
    pose proof (assemble_outcome (buckets (now_of env)) (contents_of env)
                  (after_requests env w)) as Hout.
    rewrite Hr in Hout. exact (cycle_outcome_return_value _ _ _ _ _ Hout).
Qed.

Lemma last_image_run (envs : list Env) (w : World) :
  Forall clock_in_range envs ->
  is_None (_last_image (self (run w envs))) =
  is_None (_last_image (self w)) && negb (ever_returned_bytes w envs).
Proof.
  revert w. induction envs as [|env rest IH]; intros w Hall;
    cbn [run ever_returned_bytes].
  - now rewrite andb_true_r.
  - inversion Hall as [|? ? Hc Hrest]; subst.
    rewrite (IH _ Hrest), (last_image_step env w Hc).
    rewrite negb_orb, andb_assoc. reflexivity.
Qed.

Lemma run_app (envs envs' : list Env) (w : World) :
  run w (envs ++ envs') = run (run w envs) envs'.
Proof.
  revert w. induction envs as [|env rest IH]; intros w; cbn [run app]; auto.
Qed.

Lemma is_None_true {A : Type} (o : option A) : is_None o = true <-> o = None.
Proof. destruct o; cbn; split; congruence. Qed.

(** C10: from the construction of the entity on, [_last_image] is [None]
    exactly as long as no [get_image] of any invocation has returned
    bytes.  An invocation never puts [None] back: a stored image stays
    one, and an invocation in which some fetch returns bytes leaves one
    stored, whether it returns or raises.  So an invocation returns [None]
    exactly when no fetch has returned bytes since the entity was built,
    that invocation included. *)
Theorem last_image_never_reset (name prefix : string)
    (states : gmap string State) (envs : list Env) (env : Env)
    (w1 : World) :
  Forall clock_in_range envs ->
  clock_in_range env ->
  let w0 := {| self := NeaRainCamera_init name prefix;
               hass_states := states;
               requested := [] |} in
  let w := run w0 envs in
  (is_Some (_last_image (self w1)) ->
   is_Some (_last_image (self (world_of (async_camera_image env w1))))) /\
  (fetch_returned_bytes env w1 = true ->
   is_Some (_last_image (self (world_of (async_camera_image env w1))))) /\
  (_last_image (self w) = None <-> ever_returned_bytes w0 envs = false) /\
  (forall (r : option bytes) (w' : World),
     async_camera_image env w = Return r w' ->
     (r = None <-> ever_returned_bytes w0 (envs ++ [env]) = false)).
Proof.
  intros Hall Hc w0 w.
  pose proof (last_image_step env w1 Hc) as Hstep.
  split; [|split; [|split]].
  - intros Hs. rewrite (is_Some_is_None _ Hs) in Hstep. cbn in Hstep.
    destruct (_last_image (self (world_of (async_camera_image env w1))));
      [eauto | discriminate].
  - intros Hf. rewrite Hf, andb_false_r in Hstep.
    destruct (_last_image (self (world_of (async_camera_image env w1))));
      [eauto | discriminate].
  - rewrite <- is_None_true. subst w. rewrite (last_image_run envs w0 Hall).
    cbn [w0 self NeaRainCamera_init _last_image is_None andb].
    apply negb_true_iff.
  - intros r w' Hr.
    rewrite (return_value_step env w w' r Hc Hr).
    assert (Hw' : w' = run w0 (envs ++ [env])).
    { rewrite run_app. cbn [run]. fold w. now rewrite Hr. }
    rewrite <- is_None_true, Hw'.
    rewrite (last_image_run (envs ++ [env]) w0)
      by (apply Forall_app; split; [exact Hall | now constructor]).
    cbn [w0 self NeaRainCamera_init _last_image is_None andb].
    apply negb_true_iff.
Qed.

End LastImage.

Lemma last_image_never_reset_witness :
  Forall clock_in_range [env_all_timeout; env_one_ok] /\
  clock_in_range env_all_timeout /\
  @ever_returned_bytes example_const example_calendar example_pillow
    example_world [env_all_timeout] = false /\
  @ever_returned_bytes example_const example_calendar example_pillow
    example_world [env_all_timeout; env_one_ok] = true /\
  (_last_image
     (self (@run example_const example_calendar example_pillow example_world
              [env_all_timeout; env_one_ok])) = None <->
   @ever_returned_bytes example_const example_calendar example_pillow
     example_world [env_all_timeout; env_one_ok] = false) /\
  forall (r : option bytes) (w' : World),
    @async_camera_image example_const example_calendar example_pillow
      env_all_timeout
      (@run example_const example_calendar example_pillow example_world
         [env_all_timeout; env_one_ok]) = Return r w' ->
    (r = None <->
     @ever_returned_bytes example_const example_calendar example_pillow
       example_world ([env_all_timeout; env_one_ok] ++ [env_all_timeout])
       = false).
Proof.
  assert (Hall : Forall clock_in_range [env_all_timeout; env_one_ok])
    by (repeat constructor; apply example_clock_in_range; reflexivity).
  assert (Hc : clock_in_range env_all_timeout)
    by (apply example_clock_in_range; reflexivity).
  destruct (@last_image_never_reset example_const example_calendar
              example_pillow "NEA" "nea" example_states
              [env_all_timeout; env_one_ok] env_all_timeout example_world
              Hall Hc) as [_ [_ [Hinv Hret]]].
  split; [exact Hall|]. split; [exact Hc|].
  split; [vm_compute; reflexivity|]. split; [vm_compute; reflexivity|].
  split; [exact Hinv | exact Hret].
Defined.

(** * Further properties of the code *)

(** ** [ceil_dt] for any bucket size *)

(** X1: for a positive [delta], [ceil_dt(t, delta)] is the least multiple
    of [delta] (counted from [datetime.min]) that is not before [t], less
    than [delta] after [t]; when that multiple is past [datetime.max] the
    call raises [OverflowError]. *)
Theorem ceil_dt_positive_delta (t : datetime) (delta : timedelta) :
  0 < delta ->
  datetime_min <= t ->
  let r := t + (- t) mod delta in
  t <= r < t + delta /\
  r mod delta = 0 /\
  (forall r' : datetime, r' mod delta = 0 -> t <= r' -> r <= r') /\
  (r <= datetime_max -> ceil_dt t delta = Val r) /\
  (datetime_max < r -> ceil_dt t delta = Exc OverflowError).
Proof.
  intros Hd Ht r.
  assert (Hm : 0 <= (- t) mod delta < delta) by (apply Z.mod_pos_bound; lia).
  assert (Hr : r mod delta = 0).
  { subst r. rewrite Z.add_mod_idemp_r by lia.
    replace (t + - t) with 0 by lia. apply Z.mod_0_l. lia. }
  assert (Hc : ceil_dt t delta = dt_add t ((- t) mod delta)).
  { unfold ceil_dt, td_mod, dt_diff, datetime_min.
    destruct (Z.eqb_spec delta 0) as [E|_]; [lia|]. reflexivity. }
  split; [subst r; lia|]. split; [exact Hr|]. split; [|split].
  - intros r' Hr' Hle.
    apply Z.mod_divide in Hr, Hr'; try lia.
    destruct Hr as [j Hj], Hr' as [k Hk].
    assert (Hlt : r < t + delta) by (subst r; lia).
    rewrite Hj, Hk in *.
    assert (j < k + 1) by nia. nia.
  - intros Hmax. rewrite Hc. apply dt_add_ok. unfold datetime_min in *.
    subst r. lia.
  - intros Hmax. rewrite Hc. apply dt_add_overflow. exact Hmax.
Qed.

Lemma ceil_dt_positive_delta_witness :
  let r := t_2024 + (- t_2024) mod timedelta_minutes 60 in
  t_2024 <= r < t_2024 + timedelta_minutes 60 /\
  r mod timedelta_minutes 60 = 0 /\
  (forall r' : datetime,
     r' mod timedelta_minutes 60 = 0 -> t_2024 <= r' -> r <= r') /\
  (r <= datetime_max -> ceil_dt t_2024 (timedelta_minutes 60) = Val r) /\
  (datetime_max < r ->
   ceil_dt t_2024 (timedelta_minutes 60) = Exc OverflowError).
Proof.
  apply (ceil_dt_positive_delta t_2024 (timedelta_minutes 60)).
  - unfold timedelta_minutes. lia.
  - unfold datetime_min, t_2024. lia.
Defined.

(** X2: a bucket size that is not positive.  With [delta = 0] the modulo
    raises [ZeroDivisionError].  With a negative [delta] the floor modulo
    has the sign of [delta], so [ceil_dt] rounds down: it returns the
    greatest multiple of [delta] that is not after [t], and it never
    raises. *)
Theorem ceil_dt_nonpositive_delta (t : datetime) (delta : timedelta) :
  datetime_min <= t <= datetime_max ->
  delta <= 0 ->
  (delta = 0 -> ceil_dt t delta = Exc ZeroDivisionError) /\
  (delta < 0 ->
   exists r : datetime,
     ceil_dt t delta = Val r /\
     t + delta < r <= t /\
     r mod delta = 0 /\
     forall r' : datetime, r' mod delta = 0 -> r' <= t -> r' <= r).
Proof.
  intros [Hlo Hhi] Hd. unfold datetime_min in Hlo. split.
  - intros ->. reflexivity.
  - intros Hneg. exists (t + (- t) mod delta).
    assert (Hm : delta < (- t) mod delta <= 0)
      by (apply Z.mod_neg_bound; lia).
    assert (Hr : (t + (- t) mod delta) mod delta = 0).
    { rewrite Z.add_mod_idemp_r by lia.
      replace (t + - t) with 0 by lia. apply Z.mod_0_l. lia. }
    assert (Hk : exists j, t + (- t) mod delta = j * delta).
    { apply Z.mod_divide in Hr; [exact Hr | lia]. }
    split; [|split; [lia|split; [exact Hr|]]].
    + unfold ceil_dt, td_mod, dt_diff, datetime_min.
      destruct (Z.eqb_spec delta 0) as [E|_]; [lia|]. cbn [res_bind].
      replace (0 - t) with (- t) by lia.
      apply dt_add_ok. unfold datetime_min. destruct Hk as [j Hj].
      split; [|lia]. rewrite Hj in *.
      assert (j < 1) by nia. nia.
    + intros r' Hr' Hle. apply Z.mod_divide in Hr'; [|lia].
      destruct Hk as [j Hj], Hr' as [k Hk']. rewrite Hj, Hk' in *.
      assert (j < k + 1) by nia. nia.
Qed.

Lemma ceil_dt_nonpositive_delta_witness :
  (timedelta_minutes (-5) = 0 ->
   ceil_dt t_2024 (timedelta_minutes (-5)) = Exc ZeroDivisionError) /\
  (timedelta_minutes (-5) < 0 ->
   exists r : datetime,
     ceil_dt t_2024 (timedelta_minutes (-5)) = Val r /\
     t_2024 + timedelta_minutes (-5) < r <= t_2024 /\
     r mod timedelta_minutes (-5) = 0 /\
     forall r' : datetime,
       r' mod timedelta_minutes (-5) = 0 -> r' <= t_2024 -> r' <= r).
Proof.
  apply (ceil_dt_nonpositive_delta t_2024 (timedelta_minutes (-5))).
  - unfold datetime_min, t_2024. rewrite datetime_max_value. lia.
  - unfold timedelta_minutes. lia.
Defined.

(** ** The bucket loop for any window *)

(** The [n] datetimes [start, start + td, ...]. *)
Fixpoint steps_from (start : datetime) (n : nat) : list datetime :=
  match n with
  | O => []
  | S n' => start :: steps_from (start + td) n'
  end.

(** The number of turns of the loop: [(now - start) / td], rounded up. *)
Definition turns (start now : datetime) : nat :=
  Z.to_nat ((now - start + td - 1) / td).

Lemma turns_stop (start now : datetime) : now <= start -> turns start now = O.
Proof.
  intros Hle. unfold turns. rewrite td_value.
  assert ((now - start + 300000000 - 1) / 300000000 <= 0)
    by (Z.div_mod_to_equations; lia).
  lia.
Qed.

Lemma turns_step (start now : datetime) :
  start < now -> turns start now = S (turns (start + td) now).
Proof.
  intros Hlt. unfold turns. rewrite td_value.
  assert ((now - start + 300000000 - 1) / 300000000 =
          (now - (start + 300000000) + 300000000 - 1) / 300000000 + 1)
    by (Z.div_mod_to_equations; lia).
  assert (0 <= (now - (start + 300000000) + 300000000 - 1) / 300000000)
    by (Z.div_mod_to_equations; lia).
  lia.
Qed.

(** X3: whatever the window, the loop appends to [timestamps] the
    datetimes [start, start + td, ...] that are before [now], in that
    order: [(now - start) / td] of them, rounded up, and none when
    [start] is not before [now]. *)
Theorem while_start_lt_now_window (start now : datetime)
    (timestamps : list datetime) :
  datetime_min <= start ->
  now <= last_bucket ->
  while_start_lt_now start now timestamps =
    Val (timestamps ++ steps_from start (turns start now)) /\
  Forall (fun t => start <= t < now) (steps_from start (turns start now)) /\
  (now <= start -> while_start_lt_now start now timestamps = Val timestamps).
Proof.
  intros Hlo Hhi. rewrite last_bucket_value in Hhi.
  split; [|split].
  - remember (turns start now) as n eqn:En.
    revert start timestamps Hlo En.
    induction n as [|n IH]; intros start timestamps Hlo En.
    + destruct (Z_lt_dec start now) as [Hlt|Hge].
      * rewrite (turns_step _ _ Hlt) in En. discriminate.
      * rewrite while_start_lt_now_stop by lia. cbn. now rewrite app_nil_r.
    + destruct (Z_lt_dec start now) as [Hlt|Hge].
      * rewrite (turns_step _ _ Hlt) in En. injection En as En.
        rewrite while_start_lt_now_step
          by (unfold datetime_min in *; rewrite ?datetime_max_value,
              ?td_value; lia).
        assert (Hlo' : datetime_min <= start + td)
          by (unfold datetime_min in *; rewrite td_value; lia).
        rewrite (IH (start + td) (timestamps ++ [start]) Hlo' En).
        cbn [steps_from]. now rewrite <- app_assoc.
      * rewrite turns_stop in En by lia. discriminate.
  - remember (turns start now) as n eqn:En.
    assert (Hb : forall s, start <= s -> n = turns s now ->
                 Forall (fun t => start <= t < now) (steps_from s n)).
    { clear En. induction n as [|n IH]; intros s Hs En; cbn [steps_from].
      - constructor.
      - destruct (Z_lt_dec s now) as [Hlt|Hge].
        + rewrite (turns_step _ _ Hlt) in En. injection En as En.
          constructor; [lia|]. apply IH; [rewrite td_value; lia | exact En].
        + rewrite turns_stop in En by lia. discriminate. }
    apply Hb; [lia | exact En].
  - apply while_start_lt_now_stop.
Qed.

Lemma while_start_lt_now_window_witness :
  while_start_lt_now (now_2024 - timedelta_minutes 12) now_2024 [] =
    Val ([] ++ steps_from (now_2024 - timedelta_minutes 12)
                 (turns (now_2024 - timedelta_minutes 12) now_2024)) /\
  Forall (fun t => now_2024 - timedelta_minutes 12 <= t < now_2024)
    (steps_from (now_2024 - timedelta_minutes 12)
       (turns (now_2024 - timedelta_minutes 12) now_2024)) /\
  (now_2024 <= now_2024 - timedelta_minutes 12 ->
   while_start_lt_now (now_2024 - timedelta_minutes 12) now_2024 [] = Val []).
Proof.
  apply (while_start_lt_now_window (now_2024 - timedelta_minutes 12)
           now_2024 []).
  - unfold datetime_min, now_2024, timedelta_minutes. lia.
  - rewrite last_bucket_value. unfold now_2024. lia.
Defined.

(** ** A wall clock at the ends of the datetime range *)

(** The wall clock reads a datetime. *)
Definition clock_valid (env : Env) : Prop :=
  datetime_min <= datetime_now env <= datetime_max.

Section ClockEnds.

Context {const : Const} {calendar : Calendar} {pillow : Pillow}.

Lemma forty_five_aligned : aligned (timedelta_minutes 45).
Proof. reflexivity. Qed.

(** X4: when the wall clock is in the first 45 minutes of year 1 or past
    the last bucket of year 9999, an invocation requests nothing and
    changes nothing: it raises [OverflowError] from its datetime
    arithmetic, unless the cache gate is taken first, in which case it
    returns the cached image. *)
Theorem clock_at_range_ends (env : Env) (w : World) :
  clock_valid env ->
  ~ clock_in_range env ->
  async_camera_image env w = Raise OverflowError w \/
  (gate_hit (self w) (now_of env) = true /\
   async_camera_image env w = Return (_last_image (self w)) w).
Proof.
  intros [Hlo Hhi] Hout. unfold clock_in_range in Hout.
  destruct (Z_lt_dec last_bucket (datetime_now env)) as [Hpast|Hin].
  - left. unfold async_camera_image, bind.
    rewrite (ceil_dt_past_last_bucket _ Hpast). reflexivity.
  - assert (Hearly : datetime_now env <= timedelta_minutes 45) by lia.
    pose proof (bucket_of_least _ _ forty_five_aligned Hearly) as Hnow.
    pose proof (bucket_of_bounds (datetime_now env)) as Hb.
    fold (now_of env) in Hnow, Hb.
    unfold async_camera_image, bind.
    rewrite ceil_dt_in_range by lia. fold (now_of env).
    cbn [lift get_self]. unfold dt_sub.
    destruct (Z_lt_dec (now_of env) td) as [Hsmall|Hbig].
    + left. rewrite dt_add_underflow by (unfold datetime_min; lia).
      reflexivity.
    + rewrite dt_add_ok
        by (unfold datetime_min in *; rewrite datetime_max_value;
            unfold timedelta_minutes in *; rewrite td_value in *; lia).
      cbn [lift].
      replace (now_of env + - td) with (now_of env - td) by lia.
      assert (Hfetch : fetch_and_assemble env (now_of env) w =
                       Raise OverflowError w).
      { unfold fetch_and_assemble, bind, dt_sub.
        rewrite dt_add_underflow
          by (unfold datetime_min, timedelta_minutes in *; lia).
        reflexivity. }
      unfold gate_hit.
      destruct (py_eq (_last_image_time (self w)) (now_of env - td));
        cbn [andb].
      * destruct (negb (is_None (_last_image (self w)))).
        -- right. split; reflexivity.
        -- left. exact Hfetch.
      * left. exact Hfetch.
Qed.

End ClockEnds.

(** The wall clock reads [datetime.max]. *)
Definition env_year_9999 : Env :=
  {| datetime_now := datetime_max;
     client_get := fun _ _ => ok_response png |}.

Lemma clock_at_range_ends_witness :
  @async_camera_image example_const example_calendar example_pillow
    env_year_9999 example_world = Raise OverflowError example_world \/
  (gate_hit (self example_world) (now_of env_year_9999) = true /\
   @async_camera_image example_const example_calendar example_pillow
     env_year_9999 example_world =
     Return (_last_image (self example_world)) example_world).
Proof.
  apply (@clock_at_range_ends example_const example_calendar example_pillow
           env_year_9999 example_world).
  - unfold clock_valid, datetime_min. cbn [datetime_now env_year_9999].
    rewrite datetime_max_value. lia.
  - unfold clock_in_range. cbn [datetime_now env_year_9999].
    rewrite last_bucket_value, datetime_max_value. lia.
Defined.

(** ** Any run of invocations *)

Lemma clock_in_range_dec (env : Env) :
  {clock_in_range env} + {~ clock_in_range env}.
Proof.
  unfold clock_in_range.
  destruct (Z_lt_dec (timedelta_minutes 45) (datetime_now env));
    destruct (Z_le_dec (datetime_now env) last_bucket);
    [left; lia | right; lia | right; lia | right; lia].
Qed.

(** [unique_id] and [name] *)
Definition unique_id (s : NeaRainCamera) : string := _prefix s ++ " Rain Map".
Definition name (s : NeaRainCamera) : string := _name s.

Section Runs.

Context {const : Const} {calendar : Calendar} {pillow : Pillow}.

(** A property of the world that one invocation keeps is kept by a run. *)
Lemma run_invariant (P : World -> Prop) :
  (forall (env : Env) (w : World),
     clock_valid env -> P w -> P (world_of (async_camera_image env w))) ->
  forall (envs : list Env) (w : World),
    Forall clock_valid envs -> P w -> P (run w envs).
Proof.
  intros Hstep envs. induction envs as [|env rest IH]; intros w Hall Hw;
    cbn [run]; [exact Hw|].
  inversion Hall as [|? ? Hc Hrest]; subst.
  apply IH; [exact Hrest|]. now apply Hstep.
Qed.

(** What one invocation does to the world, whatever the clock: nothing,
    or what the cycle after the gathering does. *)
Lemma invocation_world (env : Env) (w : World) :
  clock_valid env ->
  world_of (async_camera_image env w) = w \/
  (clock_in_range env /\
   gate_hit (self w) (now_of env) = false /\
   exists o : outcome (option bytes),
     cycle_outcome (buckets (now_of env)) (contents_of env)
       (after_requests env w) o /\
     async_camera_image env w = o).
Proof.
  intros Hv. destruct (clock_in_range_dec env) as [Hc|Hout].
  - rewrite (async_camera_image_eq env w Hc).
    destruct (gate_hit (self w) (now_of env)) eqn:Hg.
    + left. reflexivity.
    + right. split; [exact Hc|]. split; [reflexivity|].
      eexists. split; [apply assemble_outcome | reflexivity].
  - left. destruct (clock_at_range_ends env w Hv Hout) as [H | [_ H]];
      rewrite H; reflexivity.
Qed.


Lemma cycle_outcome_static (timestamps : list datetime)
    (contents : list (option bytes)) (w : World) (o : outcome (option bytes)) :
  cycle_outcome timestamps contents w o ->
  _name (self (world_of o)) = _name (self w) /\
  _prefix (self (world_of o)) = _prefix (self w) /\
  entity_id (self (world_of o)) = entity_id (self w).
Proof. intros H. destruct H; repeat split; reflexivity. Qed.

(** X6: no invocation changes what identifies the entity: after any run,
    [entity_id], [name] and [unique_id] are what they were. *)
Theorem descriptors_stable (envs : list Env) (w : World) :
  Forall clock_valid envs ->
  entity_id (self (run w envs)) = entity_id (self w) /\
  name (self (run w envs)) = name (self w) /\
  unique_id (self (run w envs)) = unique_id (self w).
Proof.
  intros Hall.
  apply (run_invariant
           (fun w' => entity_id (self w') = entity_id (self w) /\
                      name (self w') = name (self w) /\
                      unique_id (self w') = unique_id (self w)));
    [|exact Hall|repeat split].
  intros env w1 Hv (Hid & Hname & Huid).
  destruct (invocation_world env w1 Hv) as [Hw | (_ & _ & o & Ho & Heq)].
  - rewrite Hw. repeat split; assumption.
  - rewrite Heq. destruct (cycle_outcome_static _ _ _ _ Ho) as (Hn & Hp & He).
    cbn [after_requests with_requested self] in Hn, Hp, He.
    unfold name, unique_id in *. rewrite Hn, Hp, He.
    repeat split; assumption.
Qed.

End Runs.


Lemma example_clock_valid (env : Env) :
  datetime_now env = t_2024 -> clock_valid env.
Proof.
  intros E. unfold clock_valid, datetime_min.
  rewrite E, datetime_max_value. unfold t_2024. lia.
Qed.

Lemma descriptors_stable_witness :
  entity_id
    (self (@run example_const example_calendar example_pillow example_world
             [env_all_ok; env_year_9999; env_empty_body])) =
    "camera.nea_rain_map" /\
  name
    (self (@run example_const example_calendar example_pillow example_world
             [env_all_ok; env_year_9999; env_empty_body])) =
    "NEA Rain Map" /\
  unique_id
    (self (@run example_const example_calendar example_pillow example_world
             [env_all_ok; env_year_9999; env_empty_body])) =
    "nea Rain Map".
Proof.
  apply (@descriptors_stable example_const example_calendar example_pillow
           [env_all_ok; env_year_9999; env_empty_body] example_world).
  assert (H9999 : clock_valid env_year_9999).
  { unfold clock_valid, datetime_min. cbn [datetime_now env_year_9999].
    rewrite datetime_max_value. lia. }
  apply List.Forall_cons; [apply example_clock_valid; reflexivity|].
  apply List.Forall_cons; [exact H9999|].
  apply List.Forall_cons; [apply example_clock_valid; reflexivity|].
  apply List.Forall_nil.
Defined.

(** ** The host state store *)

Section HostStore.

Context {const : Const} {calendar : Calendar} {pillow : Pillow}.



Lemma cycle_outcome_hass_states (env : Env) (w : World)
    (o : outcome (option bytes)) :
  cycle_outcome (buckets (now_of env)) (contents_of env) w o ->
  match open_images (contents_of env) [] with
  | Val images => len images =? len (buckets (now_of env))
  | Exc _ => false
  end = false \/ hass_states w !! entity_id (self w) = None ->
  hass_states (world_of o) = hass_states w.
Proof.
  intros H Hno.
  destruct H as [e He | images Ho Hle | images buff Ho _ Henc Hne
                | images buff t st Ho _ Henc Heq Ht Hst
                | images buff t Ho _ Henc Heq Ht Hst];
    try reflexivity.
  rewrite Ho, Heq, Z.eqb_refl, Hst in Hno.
  destruct Hno; discriminate.
Qed.

(** X8: the host state store is written by a full-success commit and by
    nothing else.  An invocation that hits the gate, raises from its clock
    arithmetic or from decoding, decodes fewer frames than buckets, or
    finds no state for the entity leaves [hass.states] as it was. *)
Theorem host_state_untouched (env : Env) (w : World) :
  clock_valid env ->
  ~ clock_in_range env \/ full_success env w = false \/
  hass_states w !! entity_id (self w) = None ->
  hass_states (world_of (async_camera_image env w)) = hass_states w.
Proof.
  intros Hv Hno.
  destruct (invocation_world env w Hv) as [Hw | (Hc & Hg & o & Ho & Heq)].
  - now rewrite Hw.
  - rewrite Heq.
    rewrite (cycle_outcome_hass_states env _ _ Ho); [reflexivity|].
    destruct Hno as [Hout | [Hfull | Hnone]].
    + contradiction.
    + left. unfold full_success in Hfull. rewrite Hg in Hfull. exact Hfull.
    + right. exact Hnone.
Qed.


End HostStore.



Lemma host_state_untouched_witness :
  clock_valid env_two_ok /\
  @full_success example_const example_calendar example_pillow
    env_two_ok example_world = false /\
  hass_states
    (world_of (@async_camera_image example_const example_calendar
                 example_pillow env_two_ok example_world)) =
    hass_states example_world.
Proof.
  assert (Hv : clock_valid env_two_ok)
    by (apply example_clock_valid; reflexivity).
  assert (Hf : @full_success example_const example_calendar example_pillow
                 env_two_ok example_world = false) by (vm_compute; reflexivity).
  split; [exact Hv|]. split; [exact Hf|].
  apply (@host_state_untouched example_const example_calendar example_pillow
           env_two_ok example_world Hv).
  right. left. exact Hf.
Defined.


(** ** Decoding errors and the coherence of the cache *)

Section Coherence.

Context {const : Const} {calendar : Calendar} {pillow : Pillow}.

Lemma open_images_first_error (before after : list (option bytes))
    (content : bytes) (e : exception) (images : list Image)
    (previous : option bytes) :
  (forall c : bytes,
     In (Some c) before -> exists image : Image, Image_open c = Val image) ->
  Image_open content = Exc e ->
  open_images (before ++ Some content :: after) images = Exc e /\
  image_after_loop (before ++ Some content :: after) previous = Some content.
Proof.
  intros Hd He. revert images previous.
  induction before as [|[c|] rest IH]; intros images previous;
    cbn [app open_images image_after_loop].
  - rewrite He. split; reflexivity.
  - destruct (Hd c (or_introl eq_refl)) as [image Hi]. rewrite Hi.
    cbn [res_bind]. apply IH. intros c' Hin. apply Hd. now right.
  - apply IH. intros c' Hin. apply Hd. now right.
Qed.

(** X10: when [Image.open] raises on a fetched content, the invocation
    raises that exception, and because the content was assigned to
    [_last_image] before it was opened, the cache now holds the bytes
    that could not be decoded; the metadata, every other field and the
    host state store are as before, and the ten requests have gone out. *)
Theorem decode_error_caches_bad_bytes (env : Env) (w : World)
    (before after : list (option bytes)) (content : bytes) (e : exception) :
  clock_in_range env ->
  gate_hit (self w) (now_of env) = false ->
  contents_of env = before ++ Some content :: after ->
  (forall c : bytes,
     In (Some c) before -> exists image : Image, Image_open c = Val image) ->
  Image_open content = Exc e ->
  async_camera_image env w =
  Raise e (with_self (set__last_image (Some content)) (after_requests env w)).
Proof.
  intros Hc Hg Hcontents Hd He.
  rewrite (async_camera_image_eq env w Hc), Hg.
  destruct (open_images_first_error before after content e []
              (_last_image (self (after_requests env w))) Hd He) as [Ho Hi].
  rewrite <- Hcontents in Ho, Hi.
  rewrite (assemble_decode_error _ _ _ _ Ho).
  unfold after_decoding. rewrite Hi. reflexivity.
Qed.

(** The cache is coherent: the three metadata fields are all [None], or
    they describe one and the same bucket, which lies on a 5-minute
    boundary; and a cached bucket always comes with a cached image. *)
Definition coherent (s : NeaRainCamera) : Prop :=
  (metadata s = (None, None, None) \/
   exists t : datetime, aligned t /\ metadata s = metadata_for t) /\
  (is_Some (_last_image_time s) -> is_Some (_last_image s)).

Lemma aligned_previous (t : datetime) : aligned t -> aligned (t - td).
Proof.
  intros Ha. apply aligned_multiple in Ha as [k ->].
  apply aligned_multiple. exists (k - 1). lia.
Qed.

Lemma cycle_outcome_coherent (env : Env) (w : World)
    (o : outcome (option bytes)) :
  cycle_outcome (buckets (now_of env)) (contents_of env) w o ->
  coherent (self w) -> coherent (self (world_of o)).
Proof.
  intros H [Hm Hi].
  assert (Hfor : exists t : datetime,
            aligned t /\ metadata_for (now_of env - td) = metadata_for t).
  { exists (now_of env - td). split; [|reflexivity].
    apply aligned_previous, bucket_of_aligned. }
  destruct H as [e He | images Ho Hle | images buff Ho _ Henc Hne
                | images buff t st Ho _ Henc Heq Ht Hst
                | images buff t Ho _ Henc Heq Ht Hst];
    cbn [world_of].
  - split; [exact Hm|]. intros Hs. apply image_after_loop_keeps, Hi, Hs.
  - split; [exact Hm|]. intros Hs. apply image_after_loop_keeps, Hi, Hs.
  - split; [exact Hm|]. intros _. eexists. reflexivity.
  - rewrite buckets_last in Ht. injection Ht as <-.
    split; [right; exact Hfor|]. intros _. eexists. reflexivity.
  - rewrite buckets_last in Ht. injection Ht as <-.
    split; [right; exact Hfor|]. intros _. eexists. reflexivity.
Qed.

(** X11: the cache of an entity is coherent from its construction on,
    through any run of invocations, whether they return or raise. *)
Theorem cache_coherent (name prefix : string) (states : gmap string State)
    (envs : list Env) :
  Forall clock_valid envs ->
  coherent
    (self (run {| self := NeaRainCamera_init name prefix;
                  hass_states := states;
                  requested := [] |} envs)).
Proof.
  intros Hall.
  apply (run_invariant (fun w => coherent (self w))); [|exact Hall|].
  - intros env w Hv Hw.
    destruct (invocation_world env w Hv) as [Heq | (_ & _ & o & Ho & Heq)].
    + now rewrite Heq.
    + rewrite Heq. now apply (cycle_outcome_coherent env _ o Ho).
  - split; [left; reflexivity|]. intros [t Ht]. discriminate.
Qed.


End Coherence.

Lemma decode_error_caches_bad_bytes_witness :
  clock_in_range env_empty_body /\
  @contents_of example_const example_calendar env_empty_body =
    [] ++ Some [] :: repeat (Some []) 9 /\
  @Image_open example_pillow [] = Exc UnidentifiedImageError /\
  @async_camera_image example_const example_calendar example_pillow
    env_empty_body example_world =
  Raise UnidentifiedImageError
    (with_self (set__last_image (Some []))
       (@after_requests example_const example_calendar env_empty_body
          example_world)).
Proof.
  assert (Hc : clock_in_range env_empty_body)
    by (apply example_clock_in_range; reflexivity).
  assert (Hk : @contents_of example_const example_calendar env_empty_body =
               [] ++ Some [] :: repeat (Some []) 9)
    by (vm_compute; reflexivity).
  split; [exact Hc|]. split; [exact Hk|]. split; [reflexivity|].
  apply (@decode_error_caches_bad_bytes example_const example_calendar
           example_pillow env_empty_body example_world []
           (repeat (Some []) 9) [] UnidentifiedImageError Hc).
  - reflexivity.
  - exact Hk.
  - intros c [].
  - reflexivity.
Defined.

Lemma cache_coherent_witness :
  Forall clock_valid [env_two_ok; env_year_9999; env_all_ok; env_empty_body] /\
  @coherent example_const example_calendar
    (self (@run example_const example_calendar example_pillow
             {| self := NeaRainCamera_init "NEA" "nea";
                hass_states := example_states;
                requested := [] |}
             [env_two_ok; env_year_9999; env_all_ok; env_empty_body])).
Proof.
  assert (H9999 : clock_valid env_year_9999).
  { unfold clock_valid, datetime_min. cbn [datetime_now env_year_9999].
    rewrite datetime_max_value. lia. }
  assert (Hall : Forall clock_valid
                   [env_two_ok; env_year_9999; env_all_ok; env_empty_body]).
  { apply List.Forall_cons; [apply example_clock_valid; reflexivity|].
    apply List.Forall_cons; [exact H9999|].
    apply List.Forall_cons; [apply example_clock_valid; reflexivity|].
    apply List.Forall_cons; [apply example_clock_valid; reflexivity|].
    apply List.Forall_nil. }
  split; [exact Hall|].
  exact (@cache_coherent example_const example_calendar example_pillow
           "NEA" "nea" example_states _ Hall).
Defined.


(** ** The entity id *)







(** ** Progress along the frames *)

(** The indices [0 .. n - 1]. *)
Definition indices (n : Z) : list Z := map Z.of_nat (seq 0 (Z.to_nat n)).

(** From one frame to any later one the progress grows. *)
Definition progress_grows (n : Z) : bool :=
  forallb (fun i =>
    forallb (fun j =>
      if i <? j then PrimFloat.ltb (progress_of n i) (progress_of n j)
      else true) (indices n)) (indices n).

Lemma In_indices (n i : Z) : 0 <= i < n -> In i (indices n).
Proof.
  intros Hi. unfold indices. apply in_map_iff. exists (Z.to_nat i).
  split; [lia|]. apply in_seq. lia.
Qed.

(** X14: in an animation of [n] frames, [2 <= n <= 10], the progress is
    strictly larger on every later frame: the bar never shrinks or stalls
    from one frame to the next. *)
Theorem progress_strictly_increasing (n i j : Z) :
  2 <= n <= 10 ->
  0 <= i < j ->
  j <= n - 1 ->
  PrimFloat.ltb (progress_of n i) (progress_of n j) = true.
Proof.
  intros Hn Hij Hj.
  assert (Hall : progress_grows n = true).
  { assert (H : n = 2 \/ n = 3 \/ n = 4 \/ n = 5 \/ n = 6 \/ n = 7 \/
                n = 8 \/ n = 9 \/ n = 10) by lia.
    repeat (destruct H as [-> | H]; [vm_compute; reflexivity|]).
    subst n. vm_compute. reflexivity. }
  unfold progress_grows in Hall.
  rewrite forallb_forall in Hall.
  specialize (Hall i (In_indices n i ltac:(lia))).
  rewrite forallb_forall in Hall.
  specialize (Hall j (In_indices n j ltac:(lia))).
  destruct (Z.ltb_spec i j) as [_|Hge]; [exact Hall | lia].
Qed.

Lemma progress_strictly_increasing_witness :
  PrimFloat.ltb (progress_of 10 3) (progress_of 10 4) = true.
Proof.
  apply (progress_strictly_increasing 10 3 4); lia.
Defined.

(** ** The frames of a cycle *)

Section Frames.

Context {const : Const} {calendar : Calendar} {pillow : Pillow}.

Lemma open_images_decoded (contents : list (option bytes))
    (images images' : list Image) :
  open_images contents images = Val images' ->
  exists decoded : list Image,
    images' = images ++ decoded /\
    Forall2 (fun content image => Image_open content = Val image)
            (present contents) decoded.
Proof.
  revert images.
  induction contents as [|[c|] rest IH]; intros images;
    cbn [open_images present].
  - intros [= <-]. exists []. split; [now rewrite app_nil_r | constructor].
  - destruct (Image_open c) as [image|e] eqn:Hi; cbn [res_bind];
      [|discriminate].
    intros Ho. destruct (IH _ Ho) as (decoded & -> & Hd).
    exists (image :: decoded). split; [now rewrite <- app_assoc|].
    now constructor.
  - apply IH.
Qed.

(** X15: when the decoding loop finishes, the frames are the decoded
    contents that were not [None], one frame for each and in the order of
    the contents, so in the order of the buckets; an absent bucket leaves
    no gap and no placeholder. *)
Theorem frames_follow_contents (contents : list (option bytes))
    (w w' : World) (images : list Image) :
  for_content_in_contents contents [] w = Return images w' ->
  Forall2 (fun content image => Image_open content = Val image)
          (present contents) images /\
  length images = length (present contents) /\
  (length images <= length contents)%nat.
Proof.
  rewrite for_content_in_contents_eq. cbn zeta.
  destruct (open_images contents []) as [images'|e] eqn:Ho; [|discriminate].
  intros [= <- _].
  destruct (open_images_decoded _ _ _ Ho) as (decoded & -> & Hd).
  cbn [app]. split; [exact Hd|].
  pose proof (Forall2_length _ _ _ Hd) as Hl.
  pose proof (present_length_le contents). split; lia.
Qed.


End Frames.

Lemma frames_follow_contents_witness :
  exists (images : list (bytes * list line_args)) (w' : World),
    @for_content_in_contents example_pillow
      [None; Some png; None; Some png] [] example_world = Return images w' /\
    Forall2 (fun content image => @Image_open example_pillow content = Val image)
            (present [None; Some png; None; Some png]) images /\
    length images = 2%nat.
Proof.
  eexists _, _. split; [vm_compute; reflexivity|].
  destruct (@frames_follow_contents example_pillow
              [None; Some png; None; Some png]
              example_world _ _ eq_refl) as (Hd & Hl & _).
  split; [exact Hd | exact Hl].
Defined.

